(** * tursolf: the local todo table and its manual sync with the remote

    A shallow embedding of [src/db.ts] (the table declared in [getDb],
    the round run by [syncWithRemote]) and of the statements that
    [src/App.tsx] runs against the local table ([fetchTodos],
    [handleAddTodo], [handleToggleTodo], [handleDeleteTodo]).

    SQL statements are functions on the list of rows of the table, kept
    in rowid order.  Awaited calls are a state-and-exception monad over
    the pair of stores: a rejected promise is a thrown exception, and
    what was written before the throw stays written, as nothing in the
    source runs inside a transaction. *)

From Stdlib Require Import ZArith List String Ascii Bool Lia.
From Stdlib Require Import Permutation Sorted.
Import ListNotations.
Open Scope Z_scope.

(* ------------------------------------------------------------------ *)
(** ** The remote table, seen through [remoteClient] *)

Module Remote.

(** A row of the remote [todos] table, with the columns the sync reads:
    [row.id], [row.text], [row.completed]. *)
Record Row : Type := mkRow {
  id : Z;
  text : string;
  completed : Z
}.

(** The four statements [syncWithRemote] sends with
    [remoteClient.execute]. *)
Inductive Call : Type :=
| Delete (key : Z)
| Insert (txt : string) (done : Z)
| Update (txt : string) (done : Z) (key : Z)
| SelectAll.

(** Why an [execute] promise rejects. *)
Inductive Failure : Type :=
| Unavailable
| Rejected.

(** The remote as the client sees it: the rows of the table, the fate
    of the calls to come ([Some f]: that call rejects with [f]; [None],
    or nothing left: it goes through) and the calls sent so far, oldest
    first.  A rejected call leaves the rows as they were. *)
Record Client : Type := mkClient {
  rows : list Row;
  outages : list (option Failure);
  calls : list Call
}.

Definition ids (rs : list Row) : list Z := map id rs.

(** [DELETE FROM todos WHERE id = ?] *)
Definition delete_where_id (key : Z) (rs : list Row) : list Row :=
  filter (fun r => negb (id r =? key)) rs.

(** [UPDATE todos SET text = ?, completed = ? WHERE id = ?] *)
Definition update_where_id (txt : string) (done : Z) (key : Z)
           (rs : list Row) : list Row :=
  map (fun r => if id r =? key then mkRow (id r) txt done else r) rs.

End Remote.

(* ------------------------------------------------------------------ *)
(** ** The local table *)

(** [interface Todo]: a row of the local [todos] table.  The three flags
    are SQLite integers, as in the interface. *)
Record Todo : Type := mkTodo {
  id : Z;
  remote_id : option Z;
  text : string;
  completed : Z;
  dirty : Z;
  is_deleted : Z;
  created_at : Z
}.

(** The local database: the rows of [todos] in rowid order, and the
    [sqlite_sequence] entry that [AUTOINCREMENT] keeps for the table (the
    largest rowid handed out so far). *)
Record Database : Type := mkDatabase {
  todos : list Todo;
  sqlite_sequence : Z
}.

(** The table right after [CREATE TABLE IF NOT EXISTS todos] on a fresh
    in-memory database. *)
Definition getDb : Database := mkDatabase [] 0.

Definition with_todos (db : Database) (ts : list Todo) : Database :=
  mkDatabase ts (sqlite_sequence db).

Definition is_null (o : option Z) : bool :=
  match o with None => true | Some _ => false end.

Definition opt_eqb (o : option Z) (k : Z) : bool :=
  match o with Some v => v =? k | None => false end.

(** What [if (todo.remote_id)] lets through: JavaScript takes [null] and
    [0] as false, and any other number as true. *)
Definition truthy (o : option Z) : option Z :=
  match o with
  | Some v => if v =? 0 then None else Some v
  | None => None
  end.

Definition mem (k : Z) (ks : list Z) : bool := existsb (Z.eqb k) ks.

(** The rowid [AUTOINCREMENT] gives the next inserted row: one more than
    the largest rowid the table ever held. *)
Definition max_rowid (ts : list Todo) : Z :=
  fold_right (fun t m => Z.max (id t) m) 0 ts.

Definition next_rowid (db : Database) : Z :=
  Z.max (sqlite_sequence db) (max_rowid (todos db)) + 1.

(** [SELECT * FROM todos WHERE remote_id IS NULL OR dirty = 1] *)
Definition is_local_change (t : Todo) : bool :=
  is_null (remote_id t) || (dirty t =? 1).

Definition select_local_changes (db : Database) : list Todo :=
  filter is_local_change (todos db).

(** [DELETE FROM todos WHERE id = ?] *)
Definition delete_where_id (key : Z) (db : Database) : Database :=
  with_todos db (filter (fun t => negb (id t =? key)) (todos db)).

(** [UPDATE todos SET remote_id = ?, dirty = 0 WHERE id = ?], without
    the check of [remote_id INTEGER UNIQUE]. *)
Definition set_remote_id (rid key : Z) (t : Todo) : Todo :=
  if id t =? key
  then mkTodo (id t) (Some rid) (text t) (completed t) 0 (is_deleted t)
              (created_at t)
  else t.

(** The [UNIQUE] check of that statement: it fails when the row to update
    exists and another row already holds the remote id. *)
Definition remote_id_taken (rid key : Z) (db : Database) : bool :=
  existsb (fun t => id t =? key) (todos db)
  && existsb (fun t => negb (id t =? key) && opt_eqb (remote_id t) rid)
             (todos db).

(** [UPDATE todos SET dirty = 0 WHERE id = ?] *)
Definition clear_dirty (key : Z) (t : Todo) : Todo :=
  if id t =? key
  then mkTodo (id t) (remote_id t) (text t) (completed t) 0 (is_deleted t)
              (created_at t)
  else t.

Definition update_dirty_0 (key : Z) (db : Database) : Database :=
  with_todos db (map (clear_dirty key) (todos db)).

(** The two [DELETE] statements of the pull, chosen by
    [remoteIds.length > 0]:
    [DELETE FROM todos WHERE remote_id IS NOT NULL
       AND remote_id NOT IN (...) AND dirty = 0]
    and [DELETE FROM todos WHERE remote_id IS NOT NULL AND dirty = 0]. *)
Definition gone_remotely (remoteIds : list Z) (t : Todo) : bool :=
  match remote_id t with
  | Some k => negb (mem k remoteIds) && (dirty t =? 0)
  | None => false
  end.

Definition pushed_and_clean (t : Todo) : bool :=
  negb (is_null (remote_id t)) && (dirty t =? 0).

Definition delete_remote_deletes (remoteIds : list Z) (db : Database)
  : Database :=
  match remoteIds with
  | _ :: _ =>
      with_todos db (filter (fun t => negb (gone_remotely remoteIds t))
                            (todos db))
  | [] =>
      with_todos db (filter (fun t => negb (pushed_and_clean t)) (todos db))
  end.

(** The [DO UPDATE] arm of the pull's upsert, on one row: [text] and
    [completed] are taken from the remote row when [dirty = 0], and kept
    otherwise. *)
Definition on_conflict (row : Remote.Row) (t : Todo) : Todo :=
  if opt_eqb (remote_id t) (Remote.id row)
  then mkTodo (id t) (remote_id t)
              (if dirty t =? 0 then Remote.text row else text t)
              (if dirty t =? 0 then Remote.completed row else completed t)
              (dirty t) (is_deleted t) (created_at t)
  else t.

(** The row the upsert inserts when no local row holds the remote id. *)
Definition pulled_row (k now : Z) (row : Remote.Row) : Todo :=
  mkTodo k (Some (Remote.id row)) (Remote.text row) (Remote.completed row)
         0 0 now.

(** [INSERT INTO todos (remote_id, text, completed, dirty, is_deleted)
     VALUES (?, ?, ?, 0, 0) ON CONFLICT(remote_id) DO UPDATE SET ...],
    run at time [now] ([created_at] defaults to [unixepoch()]).  The rowid
    for the row to insert is drawn, and counted in [sqlite_sequence],
    before the conflict on [remote_id] is found: the counter advances on
    the [DO UPDATE] arm too, where no row takes that rowid. *)
Definition upsert (now : Z) (row : Remote.Row) (db : Database) : Database :=
  let k := next_rowid db in
  if existsb (fun t => opt_eqb (remote_id t) (Remote.id row)) (todos db)
  then mkDatabase (map (on_conflict row) (todos db)) k
  else mkDatabase (todos db ++ [pulled_row k now row]) k.

(** The [for (const row of remoteTodos.rows)] loop of the pull. *)
Definition upsert_all (now : Z) (snapshot : list Remote.Row) (db : Database)
  : Database :=
  fold_left (fun d row => upsert now row d) snapshot db.

(** What the upsert loop makes of one row that was in the table before
    the loop: the [DO UPDATE] arms of the snapshot rows, in order. *)
Definition merged (snapshot : list Remote.Row) (t : Todo) : Todo :=
  fold_left (fun u row => on_conflict row u) snapshot t.

Definition newer_first (a b : Todo) : Prop := created_at a >= created_at b.

(* ------------------------------------------------------------------ *)
(** ** Awaited calls *)

(** What an awaited call can throw: a rejected remote call, a violated
    constraint of the local table, or reading [.id] of a missing result
    row. *)
Inductive Exn : Type :=
| RemoteError (f : Remote.Failure)
| ConstraintError
| TypeError.

Inductive Outcome (A : Type) : Type :=
| Returned (a : A)
| Threw (e : Exn).

Arguments Returned {A} a.
Arguments Threw {A} e.

(** The two stores a round works on. *)
Record World : Type := mkWorld {
  localDb : Database;
  remoteClient : Remote.Client
}.

Definition Async (A : Type) : Type := World -> Outcome A * World.

Definition ret {A : Type} (a : A) : Async A := fun w => (Returned a, w).

Definition throw {A : Type} (e : Exn) : Async A := fun w => (Threw e, w).

Definition bind {A B : Type} (m : Async A) (k : A -> Async B) : Async B :=
  fun w =>
    match m w with
    | (Returned a, w') => k a w'
    | (Threw e, w') => (Threw e, w')
    end.

Declare Scope async_scope.
Delimit Scope async_scope with async.
Notation "x <- m ;; k" := (bind m (fun x => k))
  (at level 61, m at next level, right associativity) : async_scope.
Notation "m ;; k" := (bind m (fun _ => k))
  (at level 61, right associativity) : async_scope.
Open Scope async_scope.

(** [for (const x of xs) { await body(x) }] *)
Fixpoint for_each {A : Type} (body : A -> Async unit) (xs : list A)
  : Async unit :=
  match xs with
  | [] => ret tt
  | x :: rest => body x ;; for_each body rest
  end.

(** A local statement that reads. *)
Definition all {A : Type} (query : Database -> A) : Async A :=
  fun w => (Returned (query (localDb w)), w).

(** A local statement that writes and cannot fail. *)
Definition run (stmt : Database -> Database) : Async unit :=
  fun w => (Returned tt, mkWorld (stmt (localDb w)) (remoteClient w)).

(** [UPDATE todos SET remote_id = ?, dirty = 0 WHERE id = ?] with its
    [UNIQUE] check. *)
Definition run_update_remote_id (rid key : Z) : Async unit :=
  fun w =>
    if remote_id_taken rid key (localDb w)
    then (Threw ConstraintError, w)
    else (Returned tt,
          mkWorld (with_todos (localDb w)
                              (map (set_remote_id rid key) (todos (localDb w))))
                  (remoteClient w)).

Section Sync.

(** The id the remote table gives an inserted row.  The remote table's
    declaration is not part of the repository, so the rule is left
    open. *)
Variable assign_id : list Remote.Row -> Z.

(** What a statement does to the remote rows once it gets through, and
    the rows it returns. *)
Definition served (c : Remote.Call) (rs : list Remote.Row)
  : list Remote.Row * list Remote.Row :=
  match c with
  | Remote.Delete key => ([], Remote.delete_where_id key rs)
  | Remote.Insert txt done =>
      let r := Remote.mkRow (assign_id rs) txt done in ([r], rs ++ [r])
  | Remote.Update txt done key =>
      ([], Remote.update_where_id txt done key rs)
  | Remote.SelectAll => (rs, rs)
  end.

(** [await remoteClient.execute(...)] *)
Definition execute (c : Remote.Call) : Async (list Remote.Row) :=
  fun w =>
    let rc := remoteClient w in
    let sent := Remote.calls rc ++ [c] in
    match Remote.outages rc with
    | Some f :: later =>
        (Threw (RemoteError f),
         mkWorld (localDb w) (Remote.mkClient (Remote.rows rc) later sent))
    | fate =>
        let (result, rs) := served c (Remote.rows rc) in
        (Returned result,
         mkWorld (localDb w) (Remote.mkClient rs (tl fate) sent))
    end.

(** The body of the push loop, for one [todo] of [localChanges]. *)
Definition push_one (todo : Todo) : Async unit :=
  if is_deleted todo =? 1 then
    (* DELETE ON REMOTE *)
    match truthy (remote_id todo) with
    | Some k => execute (Remote.Delete k) ;; ret tt
    | None => ret tt
    end ;;
    (* Permanently remove locally now that it's synced *)
    run (delete_where_id (id todo))
  else
    match truthy (remote_id todo) with
    | None =>
        (* NEW ITEM *)
        result <- execute (Remote.Insert (text todo) (completed todo)) ;;
        match result with
        | r :: _ => run_update_remote_id (Remote.id r) (id todo)
        | [] => throw TypeError
        end
    | Some k =>
        (* UPDATED ITEM *)
        execute (Remote.Update (text todo) (completed todo) k) ;;
        run (update_dirty_0 (id todo))
    end.

(** [// 1. PUSH]: the query for local changes and the loop over them. *)
Definition push_phase : Async unit :=
  localChanges <- all select_local_changes ;;
  for_each push_one localChanges.

(** [// 2. PULL]: the remote snapshot, the local delete of what the
    remote no longer has, and the upsert of every remote row. *)
Definition pull_phase (now : Z) : Async unit :=
  remoteTodos <- execute Remote.SelectAll ;;
  let remoteIds := Remote.ids remoteTodos in
  run (delete_remote_deletes remoteIds) ;;
  for_each (fun row => run (upsert now row)) remoteTodos.

(** [syncWithRemote], run at time [now].  Its [catch] logs and rethrows,
    so a throw anywhere in the body is the throw of the round. *)
Definition syncWithRemote (now : Z) : Async bool :=
  push_phase ;;
  pull_phase now ;;
  ret true.

End Sync.

(** What a push that returns has done to the rows of the local table,
    by the branch taken for the local change [c]. *)
Inductive push_step (c : Todo) (ts : list Todo) : list Todo -> Prop :=
| step_erased :
    is_deleted c = 1 ->
    push_step c ts (filter (fun t => negb (id t =? id c)) ts)
| step_assigned (rid : Z) :
    is_deleted c <> 1 -> truthy (remote_id c) = None ->
    push_step c ts (map (set_remote_id rid (id c)) ts)
| step_cleared (k : Z) :
    is_deleted c <> 1 -> truthy (remote_id c) = Some k ->
    push_step c ts (map (clear_dirty (id c)) ts).

(** A row the push has nothing to do for: pushed, and not dirty. *)
Definition in_step (t : Todo) : Prop := remote_id t <> None /\ dirty t <> 1.

(** A row that will be [in_step] when the push loop over [pending] has
    returned: it is already, or a pending local change of its local id
    erases it, assigns it a remote id, or clears its dirty flag while it
    holds a remote id. *)
Definition will_settle (pending : list Todo) (u : Todo) : Prop :=
  in_step u
  \/ exists c,
      In c pending /\ id c = id u
      /\ (is_deleted c = 1 \/ truthy (remote_id c) = None
          \/ remote_id u <> None).

(* ------------------------------------------------------------------ *)
(** ** The statements of [App.tsx] *)

Module App.

(** [ORDER BY created_at DESC] over the rows in scan order: a row goes
    in front of the first row that is not newer than it.  The query
    names no second key. *)
Fixpoint place (t : Todo) (sorted : list Todo) : list Todo :=
  match sorted with
  | [] => [t]
  | u :: rest =>
      if created_at u <=? created_at t
      then t :: u :: rest
      else u :: place t rest
  end.

Definition order_by_created_at_desc (ts : list Todo) : list Todo :=
  fold_right place [] ts.

(** [fetchTodos]:
    [SELECT * FROM todos WHERE is_deleted = 0 ORDER BY created_at DESC] *)
Definition fetchTodos (database : Database) : list Todo :=
  order_by_created_at_desc
    (filter (fun t => is_deleted t =? 0) (todos database)).

(** White space and line ends that [String.prototype.trim] removes.  A
    string holds the UTF-8 bytes of the JavaScript string: the code points
    up to U+007F are one byte each ([is_space]: U+0009 to U+000D and
    U+0020), U+00A0 is two bytes ([space2]) and the others are three
    ([space3]: U+1680, U+2000 to U+200A, U+2028, U+2029, U+202F, U+205F,
    U+3000, U+FEFF). *)
Definition is_space (c : ascii) : bool :=
  let n := N_of_ascii c in
  ((9 <=? n) && (n <=? 13) || (n =? 32))%N.

Definition space2 (a b : ascii) : bool :=
  ((N_of_ascii a =? 194) && (N_of_ascii b =? 160))%N.

Definition space3 (a b c : ascii) : bool :=
  let x := N_of_ascii a in
  let y := N_of_ascii b in
  let z := N_of_ascii c in
  ((x =? 225) && (y =? 154) && (z =? 128)
   || (x =? 226) && (y =? 128)
      && ((128 <=? z) && (z <=? 138) || (z =? 168) || (z =? 169)
          || (z =? 175))
   || (x =? 226) && (y =? 129) && (z =? 159)
   || (x =? 227) && (y =? 128) && (z =? 128)
   || (x =? 239) && (y =? 187) && (z =? 191))%N.

(** [!inputValue.trim()]: every code point of the input is white
    space. *)
Fixpoint blank (s : string) : bool :=
  match s with
  | EmptyString => true
  | String a rest =>
      if is_space a then blank rest
      else
        match rest with
        | EmptyString => false
        | String b rest2 =>
            if space2 a b then blank rest2
            else
              match rest2 with
              | EmptyString => false
              | String c rest3 => space3 a b c && blank rest3
              end
        end
  end.

(** [INSERT INTO todos (text) VALUES (?)] at time [now]: the other
    columns take their defaults. *)
Definition insert_text (txt : string) (now : Z) (db : Database)
  : Database :=
  let k := next_rowid db in
  mkDatabase (todos db ++ [mkTodo k None txt 0 0 0 now]) k.

(** [handleAddTodo], for the local table. *)
Definition handleAddTodo (inputValue : string) (now : Z) (db : Database)
  : Database :=
  if blank inputValue then db else insert_text inputValue now db.

(** [handleToggleTodo]:
    [UPDATE todos SET completed = ?, dirty = 1 WHERE id = ?] with
    [currentStatus ? 0 : 1]. *)
Definition toggled (key currentStatus : Z) (t : Todo) : Todo :=
  if id t =? key
  then mkTodo (id t) (remote_id t) (text t)
              (if currentStatus =? 0 then 1 else 0)
              1 (is_deleted t) (created_at t)
  else t.

Definition handleToggleTodo (key currentStatus : Z) (db : Database)
  : Database :=
  with_todos db (map (toggled key currentStatus) (todos db)).

(** [handleDeleteTodo]:
    [UPDATE todos SET is_deleted = 1, dirty = 1 WHERE id = ?] *)
Definition tombstoned (key : Z) (t : Todo) : Todo :=
  if id t =? key
  then mkTodo (id t) (remote_id t) (text t) (completed t) 1 1
              (created_at t)
  else t.

Definition handleDeleteTodo (key : Z) (db : Database) : Database :=
  with_todos db (map (tombstoned key) (todos db)).

End App.

(* ------------------------------------------------------------------ *)
(** ** Sample stores *)

(** An allocation rule for the remote, used where a concrete remote is
    needed: one more than the largest id in the table, as a rowid table
    does. *)
Definition rowid_after (rs : list Remote.Row) : Z :=
  fold_right (fun r m => Z.max (Remote.id r) m) 0 rs + 1.

Definition quiet_remote (rs : list Remote.Row) : Remote.Client :=
  Remote.mkClient rs [] [].

Definition failing_remote (rs : list Remote.Row) (f : Remote.Failure)
  : Remote.Client :=
  Remote.mkClient rs [Some f] [].

Definition milk_bin : Todo := mkTodo 2 (Some 7) "Buy milk" 0 1 1 100.
Definition eggs_new : Todo := mkTodo 3 None "Buy eggs" 0 0 0 101.
Definition tea_new : Todo := mkTodo 4 None "Buy tea" 0 0 0 102.

Definition milk_remote : Remote.Row := Remote.mkRow 7 "Buy milk" 0.

(** Two records added within the same second. *)
Definition same_second : Database :=
  App.handleAddTodo "second" 50 (App.handleAddTodo "first" 50 getDb).

(** A record edited locally since its last push, a record in step with
    the remote, and two records whose remote rows are gone: one clean, one
    edited locally. *)
Definition a_dirty : Todo := mkTodo 1 (Some 3) "A" 0 1 0 100.
Definition c_clean : Todo := mkTodo 2 (Some 4) "C" 0 0 0 100.
Definition orphan_clean : Todo := mkTodo 5 (Some 9) "gone" 0 0 0 100.
Definition orphan_dirty : Todo := mkTodo 6 (Some 8) "kept" 1 1 0 100.

Definition remote_b_d : list Remote.Row :=
  [Remote.mkRow 3 "B" 1; Remote.mkRow 4 "D" 1].

(** A local table with a tombstone to push, a new record and a local
    edit, against a remote that holds rows 3, 4 and 7. *)
Definition busy_world : World :=
  mkWorld (mkDatabase [a_dirty; milk_bin; eggs_new] 3)
          (quiet_remote (remote_b_d ++ [milk_remote])).

(* ------------------------------------------------------------------ *)
(** ** The constraints the table declares *)

(** [id INTEGER PRIMARY KEY]: no two rows share a local id. *)
Definition ids_unique (db : Database) : Prop := NoDup (map id (todos db)).

(** [AUTOINCREMENT]: every rowid in the table has been counted in
    [sqlite_sequence]. *)
Definition ids_issued (db : Database) : Prop :=
  forall t, In t (todos db) -> id t <= sqlite_sequence db.

(** [remote_id INTEGER UNIQUE]: rows holding the same remote id are the
    same row. *)
Definition remote_ids_unique (db : Database) : Prop :=
  forall t u k,
    In t (todos db) -> In u (todos db) ->
    remote_id t = Some k -> remote_id u = Some k -> id t = id u.

Definition table_ok (db : Database) : Prop :=
  ids_unique db /\ ids_issued db /\ remote_ids_unique db.

(** The local ids are those of [db0] or were handed out after it. *)
Definition ids_from (db0 db : Database) : Prop :=
  sqlite_sequence db0 <= sqlite_sequence db
  /\ forall u, In u (todos db) ->
               (exists t, In t (todos db0) /\ id t = id u)
               \/ sqlite_sequence db0 < id u.

(** Every row of [db] is a row of [db0] as far as the columns the push
    never writes go: local id, text, completed, tombstone, creation
    time. *)
Definition rows_from (db0 db : Database) : Prop :=
  forall u, In u (todos db) ->
            exists t, In t (todos db0)
                      /\ id t = id u /\ text t = text u
                      /\ completed t = completed u
                      /\ is_deleted t = is_deleted u
                      /\ created_at t = created_at u.

(** The flags as the statements of the app write them: [dirty] is 0 or
    1, and a tombstoned row is dirty. *)
Definition flags_ok (db : Database) : Prop :=
  forall u, In u (todos db) ->
            (dirty u = 0 \/ dirty u = 1)
            /\ (is_deleted u = 1 -> dirty u = 1).

(** A local row shows a remote row. *)
Definition shows (u : Todo) (row : Remote.Row) : Prop :=
  remote_id u = Some (Remote.id row)
  /\ text u = Remote.text row
  /\ completed u = Remote.completed row.

(** A local row as the pull inserts it for a remote row at time [now]. *)
Definition downloaded (now : Z) (u : Todo) (row : Remote.Row) : Prop :=
  shows u row /\ dirty u = 0 /\ is_deleted u = 0 /\ created_at u = now.

(** The local row [c] after its push: the remote id it now holds, and a
    clean dirty flag. *)
Definition pushed_as (rid : option Z) (c : Todo) : Todo :=
  mkTodo (id c) rid (text c) (completed c) 0 (is_deleted c) (created_at c).

(* ------------------------------------------------------------------ *)
(** ** The sync button of [App.tsx] *)

Module Ui.

(** The state of the [App] component that [handleSync] reads and writes;
    [db] tells whether the database handle is set. *)
Record State : Type := mkState {
  db : bool;
  todos : list Todo;
  syncing : bool;
  syncStatus : option string;
  error : option string;
  lastSynced : option Z
}.

Definition sync_failed : string := "Sync failed. Check Fly.io logs or CORS.".

Section Handlers.

Variable assign_id : list Remote.Row -> Z.

(** [handleSync(silent)], with the round run at time [now] and
    [new Date()] giving [finished]; the state is the one reached when the
    awaited body is over (the timer that later shows 'Ready' is not part
    of it). *)
Definition handleSync (silent : bool) (now finished : Z) (st : State)
           (w : World) : State * World :=
  if negb (db st) || syncing st then (st, w)
  else
    let busy := if silent then syncing st else true in
    let status := if silent then syncStatus st else Some "Syncing..."%string in
    match syncWithRemote assign_id now w with
    | (Returned _, w') =>
        (mkState (db st) (App.fetchTodos (localDb w'))
                 (if silent then busy else false)
                 (if silent then status else Some "Synced"%string)
                 None (Some finished),
         w')
    | (Threw _, w') =>
        (mkState (db st) (todos st)
                 (if silent then busy else false)
                 (if silent then status else Some "Error"%string)
                 (if silent then None else Some sync_failed)
                 (lastSynced st),
         w')
    end.

End Handlers.

End Ui.

(* ------------------------------------------------------------------ *)
(** ** The URL of the remote client *)

Fixpoint string_drop (n : nat) (s : string) : string :=
  match n, s with
  | O, _ => s
  | S n', String _ rest => string_drop n' rest
  | S _, EmptyString => EmptyString
  end.

(** [s.replace(pattern, replacement)] for a string pattern and a
    replacement without [$]: the first occurrence is replaced. *)
Fixpoint replace_first (pattern replacement s : string) : string :=
  if String.prefix pattern s
  then replacement ++ string_drop (String.length pattern) s
  else match s with
       | EmptyString => EmptyString
       | String c rest => String c (replace_first pattern replacement rest)
       end.

Fixpoint occurs (pattern s : string) : bool :=
  String.prefix pattern s
  || match s with
     | EmptyString => false
     | String _ rest => occurs pattern rest
     end.

(** [import.meta.env.VITE_TURSO_DB_URL.replace('libsql://', 'https://')] *)
Definition remote_url (VITE_TURSO_DB_URL : string) : string :=
  replace_first "libsql://" "https://" VITE_TURSO_DB_URL.



(** A table with two pushed records, one of them edited locally. *)
Definition two_pushed : Database := mkDatabase [a_dirty; c_clean] 2.

(* ------------------------------------------------------------------ *)
(** ** Laws of the awaited calls *)

Lemma bind_returned (A B : Type) (m : Async A) (k : A -> Async B)
      (w w' : World) (a : A) :
  m w = (Returned a, w') -> bind m k w = k a w'.
Proof. intros H. unfold bind. now rewrite H. Qed.

Lemma bind_threw (A B : Type) (m : Async A) (k : A -> Async B)
      (w w' : World) (e : Exn) :
  m w = (Threw e, w') -> bind m k w = (Threw e, w').
Proof. intros H. unfold bind. now rewrite H. Qed.

Lemma bind_inv_returned (A B : Type) (m : Async A) (k : A -> Async B)
      (w w' : World) (b : B) :
  bind m k w = (Returned b, w') ->
  exists a w1, m w = (Returned a, w1) /\ k a w1 = (Returned b, w').
Proof.
  unfold bind. destruct (m w) as [[a | e] w1]; intros H.
  - exists a, w1. auto.
  - discriminate.
Qed.

Lemma for_each_app (A : Type) (body : A -> Async unit) (xs ys : list A)
      (w : World) :
  for_each body (xs ++ ys) w = (for_each body xs ;; for_each body ys) w.
Proof.
  revert w. induction xs as [| x xs IH]; intros w; simpl.
  - reflexivity.
  - unfold bind. destruct (body x w) as [[[] | e] w1]; [| reflexivity].
    rewrite IH. reflexivity.
Qed.

(** The upsert loop of the pull is the left fold of [upsert] over the
    snapshot; it cannot throw and leaves the remote alone. *)
Lemma for_each_upsert (now : Z) (snapshot : list Remote.Row) (w : World) :
  for_each (fun row => run (upsert now row)) snapshot w
  = (Returned tt,
     mkWorld (upsert_all now snapshot (localDb w)) (remoteClient w)).
Proof.
  revert w. induction snapshot as [| row rest IH]; intros w; simpl.
  - destruct w; reflexivity.
  - unfold bind, run at 1. rewrite IH. reflexivity.
Qed.

Section SyncFacts.

Variable assign_id : list Remote.Row -> Z.

Lemma execute_calls (c : Remote.Call) (w : World) :
  Remote.calls (remoteClient (snd (execute assign_id c w)))
  = Remote.calls (remoteClient w) ++ [c].
Proof.
  unfold execute.
  destruct (Remote.outages (remoteClient w)) as [| [f |] later]; simpl;
    try reflexivity;
    destruct (served assign_id c (Remote.rows (remoteClient w)));
    reflexivity.
Qed.

Lemma execute_local (c : Remote.Call) (w : World) :
  localDb (snd (execute assign_id c w)) = localDb w.
Proof.
  unfold execute.
  destruct (Remote.outages (remoteClient w)) as [| [f |] later]; simpl;
    try reflexivity;
    destruct (served assign_id c (Remote.rows (remoteClient w)));
    reflexivity.
Qed.

(** A call whose fate is to be rejected throws and changes no row. *)
Lemma execute_rejected (c : Remote.Call) (w : World) (f : Remote.Failure)
      (later : list (option Remote.Failure)) :
  Remote.outages (remoteClient w) = Some f :: later ->
  execute assign_id c w
  = (Threw (RemoteError f),
     mkWorld (localDb w)
             (Remote.mkClient (Remote.rows (remoteClient w)) later
                              (Remote.calls (remoteClient w) ++ [c]))).
Proof. intros H. unfold execute. now rewrite H. Qed.

(** A call that gets through returns what the remote serves. *)
Lemma execute_served (c : Remote.Call) (w : World) :
  hd None (Remote.outages (remoteClient w)) = None ->
  execute assign_id c w
  = (Returned (fst (served assign_id c (Remote.rows (remoteClient w)))),
     mkWorld (localDb w)
             (Remote.mkClient
                (snd (served assign_id c (Remote.rows (remoteClient w))))
                (tl (Remote.outages (remoteClient w)))
                (Remote.calls (remoteClient w) ++ [c]))).
Proof.
  intros H. unfold execute.
  destruct (Remote.outages (remoteClient w)) as [| [f |] later];
    simpl in H; try discriminate;
    destruct (served assign_id c (Remote.rows (remoteClient w)));
    reflexivity.
Qed.

End SyncFacts.

(* ------------------------------------------------------------------ *)
(** ** The push of one local change *)

Section PushOne.

Variable assign_id : list Remote.Row -> Z.



(** C6, as the code has it.  For a tombstoned local change whose
    [remote_id] is neither null nor 0 the push sends the remote delete.
    When that call gets through, whether or not the remote still has the
    row, the record is erased locally.  When the call is rejected the
    push throws the rejection and the local table is left as it was. *)
Theorem push_tombstone_pushed (todo : Todo) (w : World) (k : Z) :
  is_deleted todo = 1 ->
  remote_id todo = Some k ->
  k <> 0 ->
  let (out, w') := push_one assign_id todo w in
  Remote.calls (remoteClient w')
  = Remote.calls (remoteClient w) ++ [Remote.Delete k]
  /\ match hd None (Remote.outages (remoteClient w)) with
     | None =>
         out = Returned tt
         /\ localDb w' = delete_where_id (id todo) (localDb w)
         /\ Remote.rows (remoteClient w')
            = Remote.delete_where_id k (Remote.rows (remoteClient w))
     | Some f =>
         out = Threw (RemoteError f)
         /\ localDb w' = localDb w
         /\ Remote.rows (remoteClient w') = Remote.rows (remoteClient w)
     end.
Proof.
  intros Hdel Hrid Hk.
  unfold push_one. rewrite Hdel, Hrid. simpl.
  apply Z.eqb_neq in Hk. rewrite Hk.
  unfold bind, execute, run.
  destruct (Remote.outages (remoteClient w)) as [| [f |] later]; simpl;
    repeat split; reflexivity.
Qed.

End PushOne.


(** C6 fails as the spec words it: with the remote unavailable the push of
    a tombstoned, already pushed record throws, and the record is still in
    the local table after the push and after the whole round. *)
Lemma push_tombstone_remote_down :
  let w := mkWorld (mkDatabase [milk_bin; eggs_new] 3)
                   (failing_remote [milk_remote] Remote.Unavailable) in
  is_deleted milk_bin = 1 /\ remote_id milk_bin = Some 7 /\
  fst (push_one rowid_after milk_bin w)
  = Threw (RemoteError Remote.Unavailable) /\
  In milk_bin (todos (localDb (snd (push_one rowid_after milk_bin w)))) /\
  fst (syncWithRemote rowid_after 200 w)
  = Threw (RemoteError Remote.Unavailable) /\
  todos (localDb (snd (syncWithRemote rowid_after 200 w)))
  = [milk_bin; eggs_new].
Proof.
  vm_compute. repeat split; auto.
Qed.

Lemma push_tombstone_pushed_witness :
  let w := mkWorld (mkDatabase [milk_bin; eggs_new] 3) (quiet_remote []) in
  is_deleted milk_bin = 1 /\ remote_id milk_bin = Some 7 /\ 7 <> 0 /\
  let (out, w') := push_one rowid_after milk_bin w in
  Remote.calls (remoteClient w') = [Remote.Delete 7]
  /\ out = Returned tt
  /\ localDb w' = mkDatabase [eggs_new] 3
  /\ Remote.rows (remoteClient w') = [].
Proof.
  intros w. split; [reflexivity | split; [reflexivity | split; [lia |]]].
  apply (@push_tombstone_pushed rowid_after milk_bin w 7);
    [reflexivity | reflexivity | lia].
Defined.

(* ------------------------------------------------------------------ *)
(** ** A failed push and the rest of the round *)

Section Abort.

Variable assign_id : list Remote.Row -> Z.

(** C4, as the code has it.  The local changes are pushed one after the
    other, and the first one whose push throws ends the round: the
    round throws the same exception and leaves the stores as that push
    left them, so the changes after it are not attempted and the pull
    does not run, while what the changes before it wrote stays
    written. *)
Theorem push_failure_aborts_round (now : Z) (w w1 w2 : World)
        (pre post : list Todo) (c : Todo) (e : Exn) :
  select_local_changes (localDb w) = pre ++ c :: post ->
  for_each (push_one assign_id) pre w = (Returned tt, w1) ->
  push_one assign_id c w1 = (Threw e, w2) ->
  syncWithRemote assign_id now w = (Threw e, w2).
Proof.
  intros Hsel Hpre Hc.
  unfold syncWithRemote. apply bind_threw.
  unfold push_phase, bind, all. rewrite Hsel, for_each_app.
  unfold bind. rewrite Hpre. simpl.
  unfold bind. rewrite Hc. reflexivity.
Qed.

End Abort.

(** C4 fails as the spec words it: with two new records and a remote that
    rejects the first call, the round throws after that one call; the
    second record is never sent and the snapshot is never fetched. *)
Lemma push_failure_not_contained :
  let w := mkWorld (mkDatabase [eggs_new; tea_new] 4)
                   (failing_remote [] Remote.Rejected) in
  select_local_changes (localDb w) = [eggs_new; tea_new] /\
  syncWithRemote rowid_after 200 w
  = (Threw (RemoteError Remote.Rejected),
     mkWorld (mkDatabase [eggs_new; tea_new] 4)
             (Remote.mkClient [] [] [Remote.Insert "Buy eggs" 0])).
Proof.
  vm_compute. split; reflexivity.
Qed.

Lemma push_failure_aborts_round_witness :
  let w := mkWorld (mkDatabase [eggs_new; tea_new] 4)
                   (Remote.mkClient [] [None; Some Remote.Unavailable] []) in
  let w1 := snd (push_one rowid_after eggs_new w) in
  let w2 := snd (push_one rowid_after tea_new w1) in
  Remote.rows (remoteClient w2) = [Remote.mkRow 1 "Buy eggs" 0] /\
  syncWithRemote rowid_after 200 w
  = (Threw (RemoteError Remote.Unavailable), w2).
Proof.
  intros w w1 w2. split; [reflexivity |].
  apply (@push_failure_aborts_round rowid_after 200 w w1 w2
           [eggs_new] [] tea_new (RemoteError Remote.Unavailable));
    reflexivity.
Defined.

(* ------------------------------------------------------------------ *)
(** ** The read view and the local mutations of the app *)

Lemma place_perm (t : Todo) (l : list Todo) :
  Permutation (App.place t l) (t :: l).
Proof.
  induction l as [| u rest IH]; simpl.
  - apply Permutation_refl.
  - destruct (created_at u <=? created_at t).
    + apply Permutation_refl.
    + eapply perm_trans; [apply perm_skip, IH | apply perm_swap].
Qed.

Lemma place_sorted (t : Todo) (l : list Todo) :
  StronglySorted newer_first l -> StronglySorted newer_first (App.place t l).
Proof.
  induction l as [| u rest IH]; intros Hs; simpl.
  - constructor; constructor.
  - inversion Hs as [| ? ? Hrest Hall]; subst.
    destruct (created_at u <=? created_at t) eqn:E.
    + apply Z.leb_le in E. constructor; [exact Hs |].
      constructor; [unfold newer_first; lia |].
      rewrite Forall_forall in *. intros x Hx.
      specialize (Hall x Hx). unfold newer_first in *. lia.
    + apply Z.leb_gt in E. constructor; [apply IH, Hrest |].
      rewrite Forall_forall in *. intros x Hx.
      apply (Permutation_in _ (place_perm t rest)) in Hx.
      destruct Hx as [<- | Hx]; [unfold newer_first; lia | auto].
Qed.

(** Rows with the same [created_at] keep the order the scan met them
    in. *)
Lemma place_same_key (c : Z) (t : Todo) (l : list Todo) :
  filter (fun x => created_at x =? c) (App.place t l)
  = filter (fun x => created_at x =? c) (t :: l).
Proof.
  induction l as [| u rest IH]; simpl.
  - reflexivity.
  - destruct (created_at u <=? created_at t) eqn:E; [reflexivity |].
    apply Z.leb_gt in E. simpl. rewrite IH. simpl.
    destruct (created_at u =? c) eqn:Eu, (created_at t =? c) eqn:Et;
      try reflexivity.
    apply Z.eqb_eq in Eu, Et. lia.
Qed.

(** C8, as the code has it.  [fetchTodos] returns exactly the rows with
    [is_deleted = 0], newest [created_at] first.  The query has no second
    sort key: rows with equal [created_at] come out in the order of the
    table, which is not by descending local id. *)
Theorem fetchTodos_view (db : Database) :
  Permutation (App.fetchTodos db)
              (filter (fun t => is_deleted t =? 0) (todos db))
  /\ (forall t, In t (App.fetchTodos db) <->
                In t (todos db) /\ is_deleted t = 0)
  /\ StronglySorted newer_first (App.fetchTodos db)
  /\ (forall c,
        filter (fun x => created_at x =? c) (App.fetchTodos db)
        = filter (fun x => created_at x =? c)
                 (filter (fun t => is_deleted t =? 0) (todos db))).
Proof.
  unfold App.fetchTodos, App.order_by_created_at_desc.
  set (live := filter (fun t => is_deleted t =? 0) (todos db)).
  assert (HP : Permutation (fold_right App.place [] live) live).
  { induction live as [| t rest IH]; simpl; [constructor |].
    eapply perm_trans; [apply place_perm | apply perm_skip, IH]. }
  split; [exact HP | split; [| split]].
  - intros t. split.
    + intros H. apply (Permutation_in _ HP) in H.
      apply filter_In in H. now rewrite Z.eqb_eq in H.
    + intros [H1 H2]. apply (Permutation_in _ (Permutation_sym HP)).
      apply filter_In. now rewrite Z.eqb_eq.
  - clear HP. induction live as [| t rest IH]; simpl;
      [constructor | apply place_sorted, IH].
  - intros c. clear HP. induction live as [| t rest IH]; simpl;
      [reflexivity |].
    rewrite place_same_key. simpl. now rewrite IH.
Qed.

(** C8 fails as the spec words it: two records created in the same
    second are listed with the smaller local id first. *)
Lemma fetchTodos_ties_not_by_id_desc :
  exists a b,
    App.fetchTodos same_second = [a; b]
    /\ created_at a = created_at b
    /\ id a < id b.
Proof.
  eexists. eexists. split; [reflexivity |]. split; [reflexivity |].
  vm_compute. reflexivity.
Qed.

(** C7, as the code has it.  [handleAddTodo] inserts only [text]; the new
    row takes the defaults [dirty = 0] and [remote_id = NULL] and is a
    local change to push through its null [remote_id].  [handleToggleTodo]
    and [handleDeleteTodo] set [dirty = 1] on the row they change. *)
Theorem local_mutations_dirty (inputValue : string) (now : Z)
        (db : Database) :
  App.blank inputValue = false ->
  (exists t,
      todos (App.handleAddTodo inputValue now db) = todos db ++ [t]
      /\ text t = inputValue /\ remote_id t = None
      /\ dirty t = 0 /\ is_deleted t = 0 /\ completed t = 0
      /\ is_local_change t = true)
  /\ (forall key currentStatus i t,
        nth_error (todos db) i = Some t -> id t = key ->
        exists t',
          nth_error (todos (App.handleToggleTodo key currentStatus db)) i
          = Some t'
          /\ id t' = key /\ dirty t' = 1)
  /\ (forall key i t,
        nth_error (todos db) i = Some t -> id t = key ->
        exists t',
          nth_error (todos (App.handleDeleteTodo key db)) i = Some t'
          /\ id t' = key /\ dirty t' = 1 /\ is_deleted t' = 1).
Proof.
  intros Hblank. split; [| split].
  - unfold App.handleAddTodo. rewrite Hblank. unfold App.insert_text.
    eexists. simpl. split; [reflexivity |]. simpl. repeat split.
  - intros key st i t Hi Hid.
    unfold App.handleToggleTodo. simpl. rewrite nth_error_map, Hi. simpl.
    eexists. split; [reflexivity |].
    unfold App.toggled. apply Z.eqb_eq in Hid. rewrite Hid. simpl.
    apply Z.eqb_eq in Hid. auto.
  - intros key i t Hi Hid.
    unfold App.handleDeleteTodo. simpl. rewrite nth_error_map, Hi. simpl.
    eexists. split; [reflexivity |].
    unfold App.tombstoned. apply Z.eqb_eq in Hid. rewrite Hid. simpl.
    apply Z.eqb_eq in Hid. auto.
Qed.

(** C7 fails as the spec words it: the record created by [handleAddTodo]
    has [dirty = 0]. *)
Lemma created_record_not_dirty :
  App.blank "Buy milk" = false /\
  exists t,
    todos (App.handleAddTodo "Buy milk" 100 getDb) = [t]
    /\ remote_id t = None
    /\ dirty t <> 1.
Proof.
  split; [reflexivity |].
  eexists. split; [reflexivity |]. split; [reflexivity |].
  simpl. discriminate.
Qed.

Lemma local_mutations_dirty_witness :
  App.blank "Buy milk" = false /\
  exists t,
    todos (App.handleAddTodo "Buy milk" 100 getDb) = [t]
    /\ text t = "Buy milk"%string /\ remote_id t = None
    /\ dirty t = 0 /\ is_deleted t = 0 /\ completed t = 0
    /\ is_local_change t = true.
Proof.
  split; [reflexivity |].
  apply (@local_mutations_dirty "Buy milk" 100 getDb). reflexivity.
Defined.

(* ------------------------------------------------------------------ *)
(** ** The upsert of the pull *)

Lemma on_conflict_frame (row : Remote.Row) (t : Todo) :
  id (on_conflict row t) = id t
  /\ remote_id (on_conflict row t) = remote_id t
  /\ dirty (on_conflict row t) = dirty t
  /\ is_deleted (on_conflict row t) = is_deleted t
  /\ created_at (on_conflict row t) = created_at t.
Proof.
  unfold on_conflict.
  destruct (opt_eqb (remote_id t) (Remote.id row)); simpl; auto.
Qed.

Lemma on_conflict_dirty (row : Remote.Row) (t : Todo) :
  dirty t <> 0 -> on_conflict row t = t.
Proof.
  intros Hd. unfold on_conflict. apply Z.eqb_neq in Hd. rewrite Hd.
  destruct (opt_eqb (remote_id t) (Remote.id row)); [| reflexivity].
  destruct t; reflexivity.
Qed.

Lemma on_conflict_other (row : Remote.Row) (t : Todo) :
  remote_id t <> Some (Remote.id row) -> on_conflict row t = t.
Proof.
  intros Hne. unfold on_conflict.
  destruct (remote_id t) as [k |] eqn:E; simpl; [| reflexivity].
  destruct (k =? Remote.id row) eqn:Ek; [| reflexivity].
  apply Z.eqb_eq in Ek. congruence.
Qed.

Lemma on_conflict_clean (row : Remote.Row) (t : Todo) :
  dirty t = 0 -> remote_id t = Some (Remote.id row) ->
  text (on_conflict row t) = Remote.text row
  /\ completed (on_conflict row t) = Remote.completed row.
Proof.
  intros Hd Hr. unfold on_conflict. rewrite Hr, Hd. simpl.
  rewrite Z.eqb_refl. simpl. auto.
Qed.

Lemma opt_eqb_eq (o : option Z) (k : Z) :
  opt_eqb o k = true <-> o = Some k.
Proof.
  destruct o as [v |]; simpl.
  - rewrite Z.eqb_eq. split; congruence.
  - split; discriminate.
Qed.

Lemma mem_In (k : Z) (ks : list Z) : mem k ks = true <-> In k ks.
Proof.
  unfold mem. rewrite existsb_exists. split.
  - intros [x [Hx E]]. apply Z.eqb_eq in E. now subst.
  - intros H. exists k. split; [exact H | apply Z.eqb_refl].
Qed.

(** The rows after one upsert: every former row through the [DO UPDATE]
    arm, and one inserted row when no former row holds the remote id. *)
Lemma upsert_todos (now : Z) (row : Remote.Row) (db : Database) :
  todos (upsert now row db)
  = map (on_conflict row) (todos db)
    ++ (if existsb (fun t => opt_eqb (remote_id t) (Remote.id row))
                   (todos db)
        then []
        else [pulled_row (next_rowid db) now row]).
Proof.
  unfold upsert.
  destruct (existsb _ (todos db)) eqn:E; simpl.
  - now rewrite app_nil_r.
  - f_equal. symmetry. rewrite <- (map_id (todos db)) at 2.
    apply map_ext_in. intros t Ht. apply on_conflict_other.
    intros Hr. apply opt_eqb_eq in Hr.
    assert (X : existsb (fun t => opt_eqb (remote_id t) (Remote.id row))
                        (todos db) = true)
      by (apply existsb_exists; eauto).
    congruence.
Qed.

Lemma merged_frame (snapshot : list Remote.Row) (t : Todo) :
  id (merged snapshot t) = id t
  /\ remote_id (merged snapshot t) = remote_id t
  /\ dirty (merged snapshot t) = dirty t
  /\ is_deleted (merged snapshot t) = is_deleted t
  /\ created_at (merged snapshot t) = created_at t.
Proof.
  revert t. induction snapshot as [| row rest IH]; intros t; simpl.
  - auto.
  - destruct (IH (on_conflict row t)) as (A & B & C & D & E).
    destruct (on_conflict_frame row t) as (A' & B' & C' & D' & E').
    repeat split; congruence.
Qed.

Lemma merged_dirty (snapshot : list Remote.Row) (t : Todo) :
  dirty t <> 0 -> merged snapshot t = t.
Proof.
  revert t. induction snapshot as [| row rest IH]; intros t Hd; simpl.
  - reflexivity.
  - rewrite (on_conflict_dirty row t Hd). now apply IH.
Qed.

Lemma merged_other (snapshot : list Remote.Row) (t : Todo) :
  (forall row, In row snapshot -> remote_id t <> Some (Remote.id row)) ->
  merged snapshot t = t.
Proof.
  revert t. induction snapshot as [| row rest IH]; intros t Hne; simpl.
  - reflexivity.
  - rewrite on_conflict_other by (apply Hne; now left).
    apply IH. intros r Hr. apply Hne. now right.
Qed.

(** A clean row whose remote id is in the snapshot ends with the text and
    completed of a snapshot row of that id. *)
Lemma merged_clean (snapshot : list Remote.Row) (t : Todo) (k : Z) :
  dirty t = 0 -> remote_id t = Some k -> In k (Remote.ids snapshot) ->
  exists row,
    In row snapshot /\ Remote.id row = k
    /\ text (merged snapshot t) = Remote.text row
    /\ completed (merged snapshot t) = Remote.completed row.
Proof.
  revert t. induction snapshot as [| r rest IH]; intros t Hd Hr Hin.
  - destruct Hin.
  - simpl.
    destruct (on_conflict_frame r t) as (_ & B & C & _ & _).
    destruct (in_dec Z.eq_dec k (Remote.ids rest)) as [Hrest | Hrest].
    + destruct (IH (on_conflict r t)) as (row & H1 & H2 & H3 & H4);
        [congruence | congruence | exact Hrest |].
      exists row. split; [now right | auto].
    + assert (Hk : Remote.id r = k).
      { destruct Hin as [H | H]; [exact H | contradiction]. }
      rewrite merged_other.
      * exists r. subst k. destruct (on_conflict_clean r t Hd Hr).
        split; [now left | auto].
      * intros row Hrow E. apply Hrest. unfold Remote.ids.
        rewrite B, Hr in E. injection E as E. rewrite E.
        now apply in_map.
Qed.

(** The rows after the upsert loop: every former row, merged with the
    snapshot, at its former place, and then the inserted rows, each clean,
    not tombstoned and holding a remote id of the snapshot. *)
Lemma upsert_all_todos (now : Z) (snapshot : list Remote.Row)
      (db : Database) :
  exists extra,
    todos (upsert_all now snapshot db)
    = map (merged snapshot) (todos db) ++ extra
    /\ Forall (fun u => dirty u = 0 /\ is_deleted u = 0 /\
                        exists row, In row snapshot
                                    /\ remote_id u = Some (Remote.id row))
              extra.
Proof.
  revert db. induction snapshot as [| r rest IH]; intros db.
  - exists []. simpl. rewrite app_nil_r, map_id. auto.
  - simpl. destruct (IH (upsert now r db)) as (extra & Heq & Hall).
    rewrite upsert_todos, map_app, map_map in Heq.
    eexists. split.
    + change (upsert_all now (r :: rest) db)
        with (upsert_all now rest (upsert now r db)).
      rewrite Heq, <- app_assoc. reflexivity.
    + apply Forall_app. split.
      * destruct (existsb _ (todos db)); simpl;
          [constructor | constructor; [| constructor]].
        destruct (merged_frame rest (pulled_row (next_rowid db) now r))
          as (_ & B & C & D & _).
        rewrite B, C, D. simpl. split; [reflexivity |].
        split; [reflexivity |]. exists r. split; [now left | reflexivity].
      * eapply Forall_impl; [| exact Hall].
        intros u (A & B & row & Hrow & E). repeat split; auto.
        exists row. split; [now right | exact E].
Qed.

Lemma upsert_all_nth (now : Z) (snapshot : list Remote.Row) (db : Database)
      (i : nat) (t : Todo) :
  nth_error (todos db) i = Some t ->
  nth_error (todos (upsert_all now snapshot db)) i
  = Some (merged snapshot t).
Proof.
  intros Hi.
  destruct (upsert_all_todos now snapshot db) as (extra & Heq & _).
  rewrite Heq, nth_error_app1.
  - rewrite nth_error_map, Hi. reflexivity.
  - rewrite length_map. apply nth_error_Some. congruence.
Qed.

Lemma upsert_all_in (now : Z) (snapshot : list Remote.Row) (db : Database)
      (u : Todo) :
  In u (todos (upsert_all now snapshot db)) ->
  (exists t, In t (todos db) /\ u = merged snapshot t)
  \/ (dirty u = 0 /\ is_deleted u = 0 /\
      exists row, In row snapshot /\ remote_id u = Some (Remote.id row)).
Proof.
  destruct (upsert_all_todos now snapshot db) as (extra & Heq & Hall).
  rewrite Heq, in_app_iff, in_map_iff. intros [(t & E & Ht) | Hx].
  - left. exists t. auto.
  - right. rewrite Forall_forall in Hall. now apply Hall.
Qed.

Lemma upsert_all_keeps (now : Z) (snapshot : list Remote.Row)
      (db : Database) (t : Todo) :
  In t (todos db) -> In (merged snapshot t) (todos (upsert_all now snapshot db)).
Proof.
  intros Ht.
  destruct (upsert_all_todos now snapshot db) as (extra & Heq & _).
  rewrite Heq, in_app_iff. left. now apply in_map.
Qed.

(** C10.  Whatever the snapshot, the upsert loop of the pull returns, and
    a row that was in the local table before the loop is at the same
    place after it with the same [id], [remote_id], [dirty], [is_deleted]
    and [created_at]; a row whose [dirty] is not 0 is unchanged in every
    field.  So the loop neither clears a tombstone nor sets a dirty
    flag. *)
Theorem pull_upsert_frame (now : Z) (snapshot : list Remote.Row)
        (w : World) (i : nat) (t : Todo) :
  nth_error (todos (localDb w)) i = Some t ->
  exists w' t',
    for_each (fun row => run (upsert now row)) snapshot w = (Returned tt, w')
    /\ nth_error (todos (localDb w')) i = Some t'
    /\ id t' = id t
    /\ remote_id t' = remote_id t
    /\ dirty t' = dirty t
    /\ is_deleted t' = is_deleted t
    /\ created_at t' = created_at t
    /\ (dirty t <> 0 -> t' = t).
Proof.
  intros Hi. rewrite for_each_upsert.
  eexists. exists (merged snapshot t).
  split; [reflexivity |]. simpl.
  split; [now apply upsert_all_nth |].
  destruct (merged_frame snapshot t) as (A & B & C & D & E).
  repeat split; auto. apply merged_dirty.
Qed.

(** C2.  In the upsert loop of the pull a row with [dirty = 1] keeps its
    [text] and [completed], whatever the snapshot says for its remote id;
    a row with [dirty = 0] whose remote id is in the snapshot takes the
    [text] and [completed] of a snapshot row of that id; and a row whose
    [text] or [completed] differs after the loop was a row with
    [dirty = 0], now holding the values of a snapshot row of its remote
    id. *)
Theorem pull_upsert_dirty_wins (now : Z) (snapshot : list Remote.Row)
        (w : World) (i : nat) (t : Todo) :
  nth_error (todos (localDb w)) i = Some t ->
  exists w' t',
    for_each (fun row => run (upsert now row)) snapshot w = (Returned tt, w')
    /\ nth_error (todos (localDb w')) i = Some t'
    /\ (dirty t = 1 -> text t' = text t /\ completed t' = completed t)
    /\ (dirty t = 0 ->
        forall k, remote_id t = Some k -> In k (Remote.ids snapshot) ->
        exists row,
          In row snapshot /\ Remote.id row = k
          /\ text t' = Remote.text row
          /\ completed t' = Remote.completed row)
    /\ (text t' <> text t \/ completed t' <> completed t ->
        dirty t = 0
        /\ exists row,
            In row snapshot /\ remote_id t = Some (Remote.id row)
            /\ text t' = Remote.text row
            /\ completed t' = Remote.completed row).
Proof.
  intros Hi. rewrite for_each_upsert.
  eexists. exists (merged snapshot t).
  split; [reflexivity |]. simpl.
  split; [now apply upsert_all_nth |].
  split; [| split].
  - intros Hd. rewrite merged_dirty by lia. auto.
  - intros Hd k Hr Hk. now apply merged_clean.
  - intros Hch.
    destruct (Z.eq_dec (dirty t) 0) as [Hd | Hd].
    + split; [exact Hd |].
      destruct (remote_id t) as [k |] eqn:Hr.
      * destruct (in_dec Z.eq_dec k (Remote.ids snapshot)) as [Hk | Hk].
        -- destruct (merged_clean snapshot t k Hd Hr Hk)
             as (row & H1 & H2 & H3 & H4).
           exists row. subst k. auto.
        -- rewrite merged_other in Hch; [destruct Hch; congruence |].
           intros row Hrow E. apply Hk. rewrite Hr in E.
           injection E as E. subst k. unfold Remote.ids.
           now apply in_map.
      * rewrite merged_other in Hch; [destruct Hch; congruence |].
        intros row _ E. congruence.
    + rewrite merged_dirty in Hch by exact Hd. destruct Hch; congruence.
Qed.

Lemma pull_upsert_frame_witness :
  let w := mkWorld (mkDatabase [a_dirty; c_clean] 2)
                   (quiet_remote remote_b_d) in
  nth_error (todos (localDb w)) 1 = Some c_clean /\
  exists w' t',
    for_each (fun row => run (upsert 200 row)) remote_b_d w
    = (Returned tt, w')
    /\ nth_error (todos (localDb w')) 1 = Some t'
    /\ id t' = 2 /\ remote_id t' = Some 4 /\ dirty t' = 0
    /\ is_deleted t' = 0 /\ created_at t' = 100.
Proof.
  intros w. split; [reflexivity |].
  destruct (pull_upsert_frame 200 remote_b_d w 1 c_clean eq_refl)
    as (w' & t' & H1 & H2 & H3 & H4 & H5 & H6 & H7 & _).
  exists w', t'. repeat split; assumption.
Defined.

Lemma pull_upsert_dirty_wins_witness :
  let w := mkWorld (mkDatabase [a_dirty; c_clean] 2)
                   (quiet_remote remote_b_d) in
  nth_error (todos (localDb w)) 0 = Some a_dirty /\
  exists w' t',
    for_each (fun row => run (upsert 200 row)) remote_b_d w
    = (Returned tt, w')
    /\ nth_error (todos (localDb w')) 0 = Some t'
    /\ text t' = "A"%string /\ completed t' = 0.
Proof.
  intros w. split; [reflexivity |].
  destruct (pull_upsert_dirty_wins 200 remote_b_d w 0 a_dirty eq_refl)
    as (w' & t' & H1 & H2 & H3 & _).
  exists w', t'. destruct (H3 eq_refl). repeat split; assumption.
Defined.

(* ------------------------------------------------------------------ *)
(** ** The pull *)

Lemma gone_remotely_nil (t : Todo) :
  gone_remotely [] t = pushed_and_clean t.
Proof.
  unfold gone_remotely, pushed_and_clean.
  destruct (remote_id t); reflexivity.
Qed.

Lemma in_delete_remote_deletes (remoteIds : list Z) (db : Database)
      (t : Todo) :
  In t (todos (delete_remote_deletes remoteIds db)) <->
  In t (todos db) /\ gone_remotely remoteIds t = false.
Proof.
  unfold delete_remote_deletes.
  destruct remoteIds as [| k ks]; simpl; rewrite filter_In;
    rewrite negb_true_iff; [rewrite gone_remotely_nil |]; reflexivity.
Qed.

Lemma gone_remotely_true (remoteIds : list Z) (t : Todo) :
  gone_remotely remoteIds t = true <->
  exists k, remote_id t = Some k /\ ~ In k remoteIds /\ dirty t = 0.
Proof.
  unfold gone_remotely. destruct (remote_id t) as [k |].
  - rewrite andb_true_iff, negb_true_iff, Z.eqb_eq, <- not_true_iff_false,
      mem_In.
    split.
    + intros [H1 H2]. exists k. auto.
    + intros (k' & E & H1 & H2). injection E as <-. auto.
  - split; [discriminate | intros (k & E & _); discriminate].
Qed.

Section Pull.

Variable assign_id : list Remote.Row -> Z.

(** When the snapshot call gets through, the pull returns: the local
    table is the former one after the delete and the upserts, and the
    remote rows are as they were. *)
Lemma pull_phase_served (now : Z) (w : World) :
  hd None (Remote.outages (remoteClient w)) = None ->
  pull_phase assign_id now w
  = (Returned tt,
     mkWorld
       (upsert_all now (Remote.rows (remoteClient w))
          (delete_remote_deletes
             (Remote.ids (Remote.rows (remoteClient w))) (localDb w)))
       (Remote.mkClient (Remote.rows (remoteClient w))
                        (tl (Remote.outages (remoteClient w)))
                        (Remote.calls (remoteClient w)
                         ++ [Remote.SelectAll]))).
Proof.
  intros H. unfold pull_phase.
  unfold bind at 1. rewrite (execute_served assign_id Remote.SelectAll w H).
  simpl. unfold bind, run at 1. simpl. rewrite for_each_upsert. reflexivity.
Qed.

(** When the snapshot call is rejected, the pull throws the rejection and
    no row changes on either side. *)
Lemma pull_phase_rejected (now : Z) (w : World) (f : Remote.Failure)
      (later : list (option Remote.Failure)) :
  Remote.outages (remoteClient w) = Some f :: later ->
  pull_phase assign_id now w
  = (Threw (RemoteError f),
     mkWorld (localDb w)
             (Remote.mkClient (Remote.rows (remoteClient w)) later
                              (Remote.calls (remoteClient w)
                               ++ [Remote.SelectAll]))).
Proof.
  intros H. unfold pull_phase.
  unfold bind.
  now rewrite (execute_rejected assign_id Remote.SelectAll w f later H).
Qed.

(** C3.  Once the snapshot is fetched, the pull returns, and for a local
    row whose [remote_id] is not null and not among the ids of the
    snapshot (the empty snapshot included): with [dirty = 0] the row is
    gone from the local table, which then holds no clean row of that
    remote id; with [dirty = 1] the row is still there, unchanged. *)
Theorem pull_deletes_clean_keeps_dirty (now : Z) (w : World) (t : Todo)
        (k : Z) :
  hd None (Remote.outages (remoteClient w)) = None ->
  In t (todos (localDb w)) ->
  remote_id t = Some k ->
  ~ In k (Remote.ids (Remote.rows (remoteClient w))) ->
  exists w',
    pull_phase assign_id now w = (Returned tt, w')
    /\ (dirty t = 0 ->
        ~ In t (todos (localDb w'))
        /\ forall u, In u (todos (localDb w')) ->
                     remote_id u = Some k -> dirty u <> 0)
    /\ (dirty t = 1 -> In t (todos (localDb w'))).
Proof.
  intros Hfate Ht Hr Hk. eexists.
  split; [apply (pull_phase_served now w Hfate) |]. simpl.
  set (snapshot := Remote.rows (remoteClient w)) in *.
  assert (Hclean : forall u,
             In u (todos (upsert_all now snapshot
                            (delete_remote_deletes (Remote.ids snapshot)
                                                   (localDb w)))) ->
             remote_id u = Some k -> dirty u <> 0).
  { intros u Hu Hur Hud.
    apply upsert_all_in in Hu.
    destruct Hu as [(t0 & Ht0 & ->) | (_ & _ & row & Hrow & E)].
    - destruct (merged_frame snapshot t0) as (_ & B & C & _ & _).
      rewrite B in Hur. rewrite C in Hud.
      apply in_delete_remote_deletes in Ht0. destruct Ht0 as [_ Hkeep].
      apply not_true_iff_false in Hkeep. apply Hkeep.
      apply gone_remotely_true. exists k. auto.
    - apply Hk. rewrite Hur in E. injection E as ->.
      unfold Remote.ids. now apply in_map. }
  split.
  - intros Hd. split; [| exact Hclean].
    intros Hin. exact (Hclean t Hin Hr Hd).
  - intros Hd.
    rewrite <- (merged_dirty snapshot t) by lia.
    apply upsert_all_keeps, in_delete_remote_deletes.
    split; [exact Ht |].
    unfold gone_remotely. rewrite Hr, Hd. simpl. apply andb_false_r.
Qed.

End Pull.

Lemma pull_deletes_clean_keeps_dirty_witness :
  let w := mkWorld (mkDatabase [orphan_clean; orphan_dirty] 6)
                   (quiet_remote []) in
  In orphan_clean (todos (localDb w)) /\
  In orphan_dirty (todos (localDb w)) /\
  exists w',
    pull_phase rowid_after 200 w = (Returned tt, w')
    /\ ~ In orphan_clean (todos (localDb w'))
    /\ In orphan_dirty (todos (localDb w')).
Proof.
  intros w.
  split; [now left | split; [right; now left |]].
  destruct (pull_deletes_clean_keeps_dirty rowid_after 200 w orphan_clean 9)
    as (w1 & H1 & H2 & _);
    [reflexivity | now left | reflexivity | intros [] |].
  destruct (pull_deletes_clean_keeps_dirty rowid_after 200 w orphan_dirty 8)
    as (w2 & H3 & _ & H4);
    [reflexivity | right; now left | reflexivity | intros [] |].
  exists w1. split; [exact H1 |].
  split; [apply H2; reflexivity |].
  rewrite H1 in H3. injection H3 as <-. apply H4. reflexivity.
Defined.

(* ------------------------------------------------------------------ *)
(** ** The push loop *)

Section Push.

Variable assign_id : list Remote.Row -> Z.

Lemma push_one_returned (c : Todo) (w w' : World) :
  push_one assign_id c w = (Returned tt, w') ->
  push_step c (todos (localDb w)) (todos (localDb w'))
  /\ sqlite_sequence (localDb w') = sqlite_sequence (localDb w).
Proof.
  unfold push_one.
  destruct (is_deleted c =? 1) eqn:Hdel;
    [apply Z.eqb_eq in Hdel | apply Z.eqb_neq in Hdel];
    destruct (truthy (remote_id c)) as [k |] eqn:Htr;
    unfold bind, execute, run, run_update_remote_id, throw, ret;
    destruct (Remote.outages (remoteClient w)) as [| [f |] later]; simpl;
    try discriminate;
    try (destruct (remote_id_taken _ _ _); try discriminate);
    intros H; injection H as <-; simpl; split; try reflexivity;
    try (now apply step_erased);
    try (now apply (step_cleared c _ k));
    try (now apply step_assigned).
Qed.

Lemma push_one_threw (c : Todo) (w w' : World) (e : Exn) :
  push_one assign_id c w = (Threw e, w') -> localDb w' = localDb w.
Proof.
  unfold push_one.
  destruct (is_deleted c =? 1);
    destruct (truthy (remote_id c)) as [k |];
    unfold bind, execute, run, run_update_remote_id, throw, ret;
    destruct (Remote.outages (remoteClient w)) as [| [f |] later]; simpl;
    try discriminate;
    try (destruct (remote_id_taken _ _ _); try discriminate);
    intros H; injection H as _ <-; reflexivity.
Qed.

Lemma push_step_ids (c : Todo) (ts ts' : list Todo) (u : Todo) :
  push_step c ts ts' -> In u ts' -> exists t, In t ts /\ id t = id u.
Proof.
  intros Hstep Hu. destruct Hstep.
  - apply filter_In in Hu. exists u. tauto.
  - apply in_map_iff in Hu. destruct Hu as (t & <- & Ht). exists t.
    split; [exact Ht |]. unfold set_remote_id.
    now destruct (id t =? id c).
  - apply in_map_iff in Hu. destruct Hu as (t & <- & Ht). exists t.
    split; [exact Ht |]. unfold clear_dirty.
    now destruct (id t =? id c).
Qed.

Lemma push_step_erases (c : Todo) (ts ts' : list Todo) (u : Todo) :
  push_step c ts ts' -> is_deleted c = 1 -> In u ts' -> id u <> id c.
Proof.
  intros Hstep Hdel Hu. destruct Hstep; try contradiction.
  apply filter_In in Hu. destruct Hu as [_ Hu].
  now apply negb_true_iff, Z.eqb_neq in Hu.
Qed.

Lemma for_each_push_ids (cs : list Todo) (w w' : World) (u : Todo) :
  for_each (push_one assign_id) cs w = (Returned tt, w') ->
  In u (todos (localDb w')) ->
  exists t, In t (todos (localDb w)) /\ id t = id u.
Proof.
  revert w. induction cs as [| c rest IH]; intros w Hrun Hu.
  - injection Hrun as <-. exists u. auto.
  - simpl in Hrun. apply bind_inv_returned in Hrun.
    destruct Hrun as ([] & w1 & H1 & H2).
    destruct (IH w1 H2 Hu) as (t1 & Ht1 & E1).
    destruct (push_one_returned c w w1 H1) as [Hstep _].
    destruct (push_step_ids c _ _ t1 Hstep Ht1) as (t & Ht & E).
    exists t. split; [exact Ht | congruence].
Qed.

(** A tombstoned local change is out of the local table once the loop
    has returned. *)
Lemma for_each_push_erases (cs : list Todo) (w w' : World) (c u : Todo) :
  for_each (push_one assign_id) cs w = (Returned tt, w') ->
  In c cs -> is_deleted c = 1 ->
  In u (todos (localDb w')) -> id u <> id c.
Proof.
  revert w. induction cs as [| c0 rest IH]; intros w Hrun Hc Hdel Hu.
  - destruct Hc.
  - simpl in Hrun. apply bind_inv_returned in Hrun.
    destruct Hrun as ([] & w1 & H1 & H2).
    destruct Hc as [-> | Hc]; [| now apply (IH w1)].
    destruct (for_each_push_ids rest w1 w' u H2 Hu) as (t1 & Ht1 & <-).
    destruct (push_one_returned c w w1 H1) as [Hstep _].
    now apply (push_step_erases c _ _ t1 Hstep).
Qed.

Lemma will_settle_init (db : Database) (u : Todo) :
  In u (todos db) -> will_settle (select_local_changes db) u.
Proof.
  intros Hu. destruct (is_local_change u) eqn:E.
  - right. exists u. split; [now apply filter_In |].
    split; [reflexivity |].
    destruct (remote_id u) as [k |]; [right; right; discriminate |].
    right; left; reflexivity.
  - left. unfold is_local_change in E. apply orb_false_iff in E.
    destruct E as [E1 E2]. split.
    + destruct (remote_id u); [discriminate | discriminate E1].
    + now apply Z.eqb_neq.
Qed.

Lemma will_settle_other (c : Todo) (pending : list Todo) (u : Todo) :
  id u <> id c -> will_settle (c :: pending) u -> will_settle pending u.
Proof.
  intros Hne [H | (c1 & [<- | Hc1] & E & Hfix)].
  - now left.
  - congruence.
  - right. exists c1. auto.
Qed.

Lemma will_settle_step (c : Todo) (pending ts ts' : list Todo) :
  push_step c ts ts' ->
  (forall u, In u ts -> will_settle (c :: pending) u) ->
  forall u', In u' ts' -> will_settle pending u'.
Proof.
  intros Hstep Hall u' Hu'. destruct Hstep as [Hdel | rid Hdel Htr | k Hdel Htr].
  - apply filter_In in Hu'. destruct Hu' as [Hu' Hne].
    apply negb_true_iff, Z.eqb_neq in Hne.
    apply (will_settle_other c); auto.
  - apply in_map_iff in Hu'. destruct Hu' as (u & <- & Hu).
    unfold set_remote_id. destruct (id u =? id c) eqn:E.
    + left. split; simpl; [discriminate | lia].
    + apply Z.eqb_neq in E. apply (will_settle_other c); auto.
  - apply in_map_iff in Hu'. destruct Hu' as (u & <- & Hu).
    unfold clear_dirty. destruct (id u =? id c) eqn:E.
    + apply Z.eqb_eq in E.
      destruct (Hall u Hu) as [[H1 H2] | (c1 & Hc1 & E1 & Hfix)].
      * left. split; simpl; [exact H1 | lia].
      * destruct (remote_id u) as [r |] eqn:Hr.
        -- left. split; simpl; [discriminate | lia].
        -- right. exists c1.
           destruct Hc1 as [<- | Hc1].
           ++ destruct Hfix as [H | [H | H]]; congruence.
           ++ split; [exact Hc1 |]. split; [exact E1 |]. exact Hfix.
    + apply Z.eqb_neq in E. apply (will_settle_other c); auto.
Qed.

Lemma for_each_push_settles (cs : list Todo) (w w' : World) :
  for_each (push_one assign_id) cs w = (Returned tt, w') ->
  (forall u, In u (todos (localDb w)) -> will_settle cs u) ->
  forall u, In u (todos (localDb w')) -> in_step u.
Proof.
  revert w. induction cs as [| c rest IH]; intros w Hrun Hall u Hu.
  - injection Hrun as <-.
    destruct (Hall u Hu) as [H | (c & [] & _)]. exact H.
  - simpl in Hrun. apply bind_inv_returned in Hrun.
    destruct Hrun as ([] & w1 & H1 & H2).
    destruct (push_one_returned c w w1 H1) as [Hstep _].
    apply (IH w1 H2); [| exact Hu].
    apply (will_settle_step c rest _ _ Hstep Hall).
Qed.

(** After a push that returned, no row of the local table is a local
    change any more. *)
Lemma push_phase_settles (w w' : World) :
  push_phase assign_id w = (Returned tt, w') ->
  forall u, In u (todos (localDb w')) -> in_step u.
Proof.
  intros Hrun. unfold push_phase, bind, all in Hrun.
  apply (for_each_push_settles _ w w' Hrun).
  intros u. apply will_settle_init.
Qed.


End Push.



(* ------------------------------------------------------------------ *)
(** ** A second round right after a first *)





Lemma merged_snoc (snapshot : list Remote.Row) (r : Remote.Row) (u : Todo) :
  merged (snapshot ++ [r]) u = on_conflict r (merged snapshot u).
Proof. unfold merged. now rewrite fold_left_app. Qed.

Lemma upsert_all_snoc (now : Z) (snapshot : list Remote.Row)
      (r : Remote.Row) (db : Database) :
  upsert_all now (snapshot ++ [r]) db
  = upsert now r (upsert_all now snapshot db).
Proof. unfold upsert_all. now rewrite fold_left_app. Qed.

(** On a clean row of its remote id the [DO UPDATE] arm writes the remote
    text and completed over whatever was there. *)
Lemma on_conflict_hit (r : Remote.Row) (z : Todo) :
  remote_id z = Some (Remote.id r) -> dirty z = 0 ->
  on_conflict r z
  = mkTodo (id z) (remote_id z) (Remote.text r) (Remote.completed r)
           (dirty z) (is_deleted z) (created_at z).
Proof.
  intros Hr Hd. unfold on_conflict. rewrite Hr, Hd. simpl.
  now rewrite Z.eqb_refl.
Qed.

Lemma on_conflict_after_merge (r : Remote.Row) (snapshot : list Remote.Row)
      (u : Todo) :
  on_conflict r (merged snapshot (on_conflict r u))
  = on_conflict r (merged snapshot u).
Proof.
  destruct (Z.eq_dec (dirty u) 0) as [Hd | Hd];
    [| now rewrite (on_conflict_dirty r u Hd)].
  destruct (remote_id u) as [k |] eqn:Hr;
    [| rewrite (on_conflict_other r u); [reflexivity | congruence]].
  destruct (Z.eq_dec k (Remote.id r)) as [-> | Hk];
    [| rewrite (on_conflict_other r u); [reflexivity | congruence]].
  destruct (on_conflict_frame r u) as (A & B & C & D & E).
  destruct (merged_frame snapshot (on_conflict r u))
    as (A1 & B1 & C1 & D1 & E1).
  destruct (merged_frame snapshot u) as (A2 & B2 & C2 & D2 & E2).
  set (v := on_conflict r u) in *.
  rewrite (on_conflict_hit r (merged snapshot v)) by congruence.
  rewrite (on_conflict_hit r (merged snapshot u)) by congruence.
  congruence.
Qed.

(** Every row the upsert loop leaves is one a further pass of the same
    snapshot would not change. *)
Lemma upsert_all_fixed (now : Z) (snapshot : list Remote.Row)
      (db : Database) (u : Todo) :
  In u (todos (upsert_all now snapshot db)) -> merged snapshot u = u.
Proof.
  revert u. induction snapshot as [| r rest IH] using rev_ind; intros u Hu.
  - reflexivity.
  - rewrite upsert_all_snoc, upsert_todos, in_app_iff in Hu.
    rewrite merged_snoc. destruct Hu as [Hu | Hu].
    + apply in_map_iff in Hu. destruct Hu as (t & <- & Ht).
      rewrite on_conflict_after_merge, (IH t Ht). reflexivity.
    + destruct (existsb _ _); [destruct Hu |].
      destruct Hu as [<- | []].
      set (p := pulled_row _ now r).
      destruct (merged_frame rest p) as (A & B & C & D & E).
      rewrite on_conflict_hit by (rewrite ?B, ?C; reflexivity).
      rewrite A, B, C, D, E. reflexivity.
Qed.

Lemma upsert_present (now : Z) (r : Remote.Row) (db : Database) :
  exists u,
    In u (todos (upsert now r db)) /\ remote_id u = Some (Remote.id r).
Proof.
  rewrite upsert_todos.
  destruct (existsb _ (todos db)) eqn:E.
  - apply existsb_exists in E. destruct E as (t & Ht & Hr).
    apply opt_eqb_eq in Hr. exists (on_conflict r t).
    rewrite app_nil_r. split; [now apply in_map |].
    destruct (on_conflict_frame r t) as (_ & B & _). congruence.
  - eexists. split; [apply in_app_iff; right; now left | reflexivity].
Qed.

Lemma upsert_all_present (now : Z) (snapshot : list Remote.Row)
      (db : Database) (row : Remote.Row) :
  In row snapshot ->
  exists u,
    In u (todos (upsert_all now snapshot db))
    /\ remote_id u = Some (Remote.id row).
Proof.
  revert db. induction snapshot as [| r rest IH]; intros db Hrow.
  - destruct Hrow.
  - change (upsert_all now (r :: rest) db)
      with (upsert_all now rest (upsert now r db)).
    destruct Hrow as [-> | Hrow]; [| now apply IH].
    destruct (upsert_present now row db) as (u & Hu & Hr).
    exists (merged rest u). split; [now apply upsert_all_keeps |].
    destruct (merged_frame rest u) as (_ & B & _). congruence.
Qed.










Section Rounds.

Variable assign_id : list Remote.Row -> Z.

Lemma sync_returned_inv (now : Z) (w w1 : World) :
  syncWithRemote assign_id now w = (Returned true, w1) ->
  exists wp,
    push_phase assign_id w = (Returned tt, wp)
    /\ pull_phase assign_id now wp = (Returned tt, w1).
Proof.
  intros H. unfold syncWithRemote in H.
  apply bind_inv_returned in H. destruct H as ([] & wp & Hpush & H).
  apply bind_inv_returned in H. destruct H as ([] & w1' & Hpull & H).
  injection H as <-. exists wp. auto.
Qed.

Lemma pull_returned_fate (now : Z) (w w1 : World) :
  pull_phase assign_id now w = (Returned tt, w1) ->
  hd None (Remote.outages (remoteClient w)) = None.
Proof.
  intros H.
  destruct (Remote.outages (remoteClient w)) as [| [f |] later] eqn:E;
    try reflexivity.
  rewrite (pull_phase_rejected assign_id now w f later E) in H.
  discriminate.
Qed.


End Rounds.



(* ------------------------------------------------------------------ *)
(** ** What every statement keeps of the table *)

Lemma max_rowid_ge (ts : list Todo) (t : Todo) :
  In t ts -> id t <= max_rowid ts.
Proof.
  induction ts as [| u rest IH]; intros H; simpl.
  - destruct H.
  - destruct H as [-> | H]; [lia | specialize (IH H); lia].
Qed.

Lemma next_rowid_fresh (db : Database) :
  sqlite_sequence db < next_rowid db
  /\ forall t, In t (todos db) -> id t < next_rowid db.
Proof.
  unfold next_rowid. split; [lia |].
  intros t Ht. pose proof (max_rowid_ge _ _ Ht). lia.
Qed.

(** Deleting rows keeps the local ids distinct. *)
Lemma unique_ids_filter (keep : Todo -> bool) (ts : list Todo) :
  NoDup (map id ts) -> NoDup (map id (filter keep ts)).
Proof.
  intros Hnd. induction ts as [| t rest IH]; simpl; [constructor |].
  simpl in Hnd. inversion Hnd as [| ? ? Ht Hrest]; subst.
  destruct (keep t); simpl; [constructor |]; auto.
  intros Hin. apply Ht. apply in_map_iff in Hin.
  destruct Hin as (u & E & Hu). apply filter_In in Hu.
  apply in_map_iff. exists u. tauto.
Qed.

Lemma table_ok_filter (p : Todo -> bool) (db : Database) :
  table_ok db -> table_ok (with_todos db (filter p (todos db))).
Proof.
  intros (H1 & H2 & H3). split; [| split].
  - now apply unique_ids_filter.
  - intros t Ht. apply filter_In in Ht. apply H2. tauto.
  - intros t u k Ht Hu. apply filter_In in Ht, Hu.
    apply H3; tauto.
Qed.

Lemma table_ok_map (f : Todo -> Todo) (db : Database) :
  (forall t, id (f t) = id t) ->
  (forall t, remote_id (f t) = remote_id t) ->
  table_ok db -> table_ok (with_todos db (map f (todos db))).
Proof.
  intros Hid Hrid (H1 & H2 & H3). split; [| split].
  - unfold ids_unique. simpl. rewrite map_map.
    rewrite (map_ext _ id Hid). exact H1.
  - intros t Ht. simpl in Ht. apply in_map_iff in Ht.
    destruct Ht as (t0 & <- & Ht0). rewrite Hid. simpl. now apply H2.
  - intros t u k Ht Hu. simpl in Ht, Hu.
    apply in_map_iff in Ht, Hu.
    destruct Ht as (t0 & <- & Ht0), Hu as (u0 & <- & Hu0).
    rewrite !Hid, !Hrid. now apply H3.
Qed.

Lemma set_remote_id_id (rid key : Z) (t : Todo) :
  id (set_remote_id rid key t) = id t.
Proof. unfold set_remote_id. now destruct (id t =? key). Qed.

Lemma clear_dirty_frame (key : Z) (t : Todo) :
  id (clear_dirty key t) = id t
  /\ remote_id (clear_dirty key t) = remote_id t.
Proof. unfold clear_dirty. now destruct (id t =? key). Qed.

Lemma table_ok_set_remote_id (rid key : Z) (db : Database) :
  remote_id_taken rid key db = false ->
  table_ok db ->
  table_ok (with_todos db (map (set_remote_id rid key) (todos db))).
Proof.
  intros Hfree (H1 & H2 & H3). split; [| split].
  - unfold ids_unique. simpl. rewrite map_map.
    rewrite (map_ext _ id (set_remote_id_id rid key)). exact H1.
  - intros t Ht. simpl in Ht. apply in_map_iff in Ht.
    destruct Ht as (t0 & <- & Ht0). rewrite set_remote_id_id. simpl.
    now apply H2.
  - assert (Hother : forall t u,
               In t (todos db) -> In u (todos db) ->
               id t = key -> id u <> key -> remote_id u <> Some rid).
    { intros t u Ht Hu Et Eu Hr.
      unfold remote_id_taken in Hfree. apply andb_false_iff in Hfree.
      destruct Hfree as [Hf | Hf];
        apply not_true_iff_false in Hf; apply Hf, existsb_exists.
      - exists t. split; [exact Ht | now apply Z.eqb_eq].
      - exists u. split; [exact Hu |].
        apply andb_true_iff. split.
        + now apply negb_true_iff, Z.eqb_neq.
        + now apply opt_eqb_eq. }
    intros t u k Ht Hu Hrt Hru. simpl in Ht, Hu.
    apply in_map_iff in Ht, Hu.
    destruct Ht as (t0 & <- & Ht0), Hu as (u0 & <- & Hu0).
    rewrite !set_remote_id_id.
    unfold set_remote_id in Hrt, Hru.
    destruct (id t0 =? key) eqn:Et, (id u0 =? key) eqn:Eu;
      simpl in Hrt, Hru.
    + apply Z.eqb_eq in Et, Eu. congruence.
    + apply Z.eqb_eq in Et. apply Z.eqb_neq in Eu.
      injection Hrt as <-. now destruct (Hother t0 u0 Ht0 Hu0 Et Eu).
    + apply Z.eqb_neq in Et. apply Z.eqb_eq in Eu.
      injection Hru as <-. now destruct (Hother u0 t0 Hu0 Ht0 Eu Et).
    + now apply (H3 t0 u0 k).
Qed.

Lemma table_ok_append (db : Database) (t : Todo) :
  id t = next_rowid db ->
  (forall k u, remote_id t = Some k -> In u (todos db) ->
               remote_id u <> Some k) ->
  table_ok db ->
  table_ok (mkDatabase (todos db ++ [t]) (next_rowid db)).
Proof.
  intros Hid Hfree (H1 & H2 & H3).
  destruct (next_rowid_fresh db) as [Hseq Hnew].
  split; [| split].
  - unfold ids_unique. simpl. rewrite map_app. simpl.
    apply NoDup_app; [exact H1 | repeat constructor; intros [] |].
    intros x Hx [<- | []]. apply in_map_iff in Hx.
    destruct Hx as (u & E & Hu). specialize (Hnew u Hu). lia.
  - intros u Hu. simpl in *. apply in_app_iff in Hu.
    destruct Hu as [Hu | [<- | []]]; [| lia].
    specialize (Hnew u Hu). lia.
  - intros u v k Hu Hv Hru Hrv. simpl in Hu, Hv.
    apply in_app_iff in Hu, Hv.
    destruct Hu as [Hu | [<- | []]], Hv as [Hv | [<- | []]].
    + now apply (H3 u v k).
    + now destruct (Hfree k u Hrv Hu).
    + now destruct (Hfree k v Hru Hv).
    + reflexivity.
Qed.

Lemma table_ok_counter (db : Database) (k : Z) :
  sqlite_sequence db <= k -> table_ok db ->
  table_ok (mkDatabase (todos db) k).
Proof.
  intros Hk (H1 & H2 & H3). split; [exact H1 | split; [| exact H3]].
  intros t Ht. simpl in *. specialize (H2 t Ht). lia.
Qed.

Lemma table_ok_upsert (now : Z) (row : Remote.Row) (db : Database) :
  table_ok db -> table_ok (upsert now row db).
Proof.
  intros Hok. unfold upsert. cbv zeta.
  destruct (existsb _ (todos db)) eqn:E.
  - apply (table_ok_counter
             (with_todos db (map (on_conflict row) (todos db)))).
    + simpl. destruct (next_rowid_fresh db). lia.
    + apply table_ok_map; [| | exact Hok]; intros t;
        destruct (on_conflict_frame row t) as (A & B & _); assumption.
  - apply table_ok_append; [reflexivity | | exact Hok].
    intros k u Hk Hu Hr. simpl in Hk. injection Hk as <-.
    apply not_true_iff_false in E. apply E, existsb_exists.
    exists u. split; [exact Hu | now apply opt_eqb_eq].
Qed.

Lemma table_ok_delete_remote_deletes (remoteIds : list Z) (db : Database) :
  table_ok db -> table_ok (delete_remote_deletes remoteIds db).
Proof.
  intros Hok. unfold delete_remote_deletes.
  destruct remoteIds; now apply table_ok_filter.
Qed.

Section LocalInvariants.

Variable assign_id : list Remote.Row -> Z.

(** The four things a push can have done to the local table, whatever
    its outcome. *)
Lemma push_one_local (c : Todo) (w : World) :
  let db := localDb w in
  let db' := localDb (snd (push_one assign_id c w)) in
  db' = db
  \/ db' = delete_where_id (id c) db
  \/ db' = update_dirty_0 (id c) db
  \/ exists rid,
      remote_id_taken rid (id c) db = false
      /\ db' = with_todos db (map (set_remote_id rid (id c)) (todos db)).
Proof.
  unfold push_one.
  destruct (is_deleted c =? 1);
    destruct (truthy (remote_id c)) as [k |];
    unfold bind, execute, run, run_update_remote_id, throw, ret;
    destruct (Remote.outages (remoteClient w)) as [| [f |] later]; simpl;
    auto;
    destruct (remote_id_taken _ _ _) eqn:E; simpl; auto;
    right; right; right; eexists; (split; [exact E | reflexivity]).
Qed.

Lemma for_each_local_inv (A : Type) (P : Database -> Prop)
      (body : A -> Async unit) (xs : list A) (w : World) :
  (forall x w0, P (localDb w0) -> P (localDb (snd (body x w0)))) ->
  P (localDb w) -> P (localDb (snd (for_each body xs w))).
Proof.
  intros Hbody. revert w. induction xs as [| x rest IH]; intros w Hw.
  - exact Hw.
  - simpl. unfold bind. specialize (Hbody x w Hw).
    destruct (body x w) as [[[] | e] w1]; simpl in *; auto.
Qed.

(** A property of the local table that each push, the delete of the pull
    and each upsert keep is kept by the round, however the round ends. *)
Lemma sync_local_inv (P : Database -> Prop) (now : Z) (w : World) :
  (forall c w0, P (localDb w0) ->
                P (localDb (snd (push_one assign_id c w0)))) ->
  (forall remoteIds db, P db -> P (delete_remote_deletes remoteIds db)) ->
  (forall row db, P db -> P (upsert now row db)) ->
  P (localDb w) -> P (localDb (snd (syncWithRemote assign_id now w))).
Proof.
  intros Hpush Hdel Hup Hw.
  assert (H1 : P (localDb (snd (push_phase assign_id w)))).
  { unfold push_phase, bind, all. now apply for_each_local_inv. }
  unfold syncWithRemote, bind at 1.
  destruct (push_phase assign_id w) as [[[] | e] w1]; simpl in *; [| exact H1].
  unfold bind at 1.
  assert (H2 : P (localDb (snd (pull_phase assign_id now w1)))).
  { unfold pull_phase, bind at 1.
    pose proof (execute_local assign_id Remote.SelectAll w1) as Hl.
    destruct (execute assign_id Remote.SelectAll w1) as [[rows | e] w2];
      simpl in *; [| now rewrite Hl].
    unfold bind, run at 1. rewrite for_each_upsert. simpl.
    rewrite Hl. clear Hl.
    generalize (delete_remote_deletes (Remote.ids rows) (localDb w1))
               (Hdel (Remote.ids rows) _ H1).
    induction rows as [| r rest IH]; intros db Hdb; simpl; auto. }
  destruct (pull_phase assign_id now w1) as [[[] | e] w2]; exact H2.
Qed.

Lemma push_one_table_ok (c : Todo) (w : World) :
  table_ok (localDb w) ->
  table_ok (localDb (snd (push_one assign_id c w))).
Proof.
  intros Hok. pose proof (push_one_local c w) as H. cbv zeta in H.
  destruct H as [-> | [-> | [-> | (rid & Hfree & ->)]]].
  - exact Hok.
  - now apply table_ok_filter.
  - apply table_ok_map; [| | exact Hok]; intros t;
      now destruct (clear_dirty_frame (id c) t).
  - now apply table_ok_set_remote_id.
Qed.

(** A round keeps the declared constraints of the local table, whether it
    returns or throws and wherever it throws: local ids stay unique and
    counted in [sqlite_sequence], and no two rows hold the same remote
    id. *)
Theorem sync_keeps_table_ok (now : Z) (w : World) :
  table_ok (localDb w) ->
  table_ok (localDb (snd (syncWithRemote assign_id now w))).
Proof.
  apply sync_local_inv.
  - apply push_one_table_ok.
  - intros ids db. apply table_ok_delete_remote_deletes.
  - intros row db. apply table_ok_upsert.
Qed.

End LocalInvariants.

(** The three mutations of the app keep the declared constraints of the
    local table: unique local ids, counted in [sqlite_sequence], and
    unique remote ids. *)
Theorem handlers_keep_table_ok (db : Database) :
  table_ok db ->
  (forall inputValue now, table_ok (App.handleAddTodo inputValue now db))
  /\ (forall key currentStatus,
         table_ok (App.handleToggleTodo key currentStatus db))
  /\ (forall key, table_ok (App.handleDeleteTodo key db)).
Proof.
  intros Hok. split; [| split].
  - intros s now. unfold App.handleAddTodo.
    destruct (App.blank s); [exact Hok |].
    apply table_ok_append; [reflexivity | | exact Hok].
    intros k u Hk. discriminate.
  - intros key st. apply table_ok_map; [| | exact Hok]; intros t;
      unfold App.toggled; now destruct (id t =? key).
  - intros key. apply table_ok_map; [| | exact Hok]; intros t;
      unfold App.tombstoned; now destruct (id t =? key).
Qed.

Lemma getDb_table_ok : table_ok getDb.
Proof.
  split; [constructor | split]; [intros t [] | intros t u k []].
Qed.

Lemma two_pushed_table_ok : table_ok two_pushed.
Proof.
  split; [| split].
  - unfold ids_unique. simpl. repeat constructor; simpl; intuition lia.
  - intros t [<- | [<- | []]]; simpl; lia.
  - intros t u k [<- | [<- | []]] [<- | [<- | []]]; simpl;
      intros H1 H2; congruence.
Qed.

Lemma busy_world_table_ok : table_ok (localDb busy_world).
Proof.
  split; [| split].
  - unfold ids_unique. simpl. repeat constructor; simpl; intuition lia.
  - intros t [<- | [<- | [<- | []]]]; simpl; lia.
  - intros t u k [<- | [<- | [<- | []]]] [<- | [<- | [<- | []]]]; simpl;
      intros H1 H2; congruence.
Qed.

Lemma handlers_keep_table_ok_witness :
  table_ok two_pushed /\
  map id (todos (App.handleAddTodo "Buy milk" 100 two_pushed)) = [1; 2; 3] /\
  table_ok (App.handleAddTodo "Buy milk" 100 two_pushed) /\
  map completed (todos (App.handleToggleTodo 1 0 two_pushed)) = [1; 0] /\
  table_ok (App.handleToggleTodo 1 0 two_pushed) /\
  map is_deleted (todos (App.handleDeleteTodo 2 two_pushed)) = [0; 1] /\
  table_ok (App.handleDeleteTodo 2 two_pushed).
Proof.
  destruct (handlers_keep_table_ok two_pushed two_pushed_table_ok)
    as (Hadd & Htoggle & Hdelete).
  split; [exact two_pushed_table_ok |].
  split; [reflexivity | split; [apply Hadd |]].
  split; [reflexivity | split; [apply Htoggle |]].
  split; [reflexivity | apply Hdelete].
Defined.

Lemma sync_keeps_table_ok_witness :
  let w1 := snd (syncWithRemote rowid_after 200 busy_world) in
  table_ok (localDb busy_world) /\
  fst (syncWithRemote rowid_after 200 busy_world) = Returned true /\
  map id (todos (localDb w1)) = [1; 3; 5] /\
  map remote_id (todos (localDb w1)) = [Some 3; Some 5; Some 4] /\
  sqlite_sequence (localDb w1) = 6 /\
  table_ok (localDb w1).
Proof.
  intros w1. split; [exact busy_world_table_ok |].
  split; [reflexivity | split; [reflexivity | split; [reflexivity |]]].
  split; [reflexivity |].
  apply (sync_keeps_table_ok rowid_after 200 busy_world
           busy_world_table_ok).
Defined.

(* ------------------------------------------------------------------ *)
(** ** Local ids are not handed out twice *)

Lemma ids_from_refl (db : Database) : ids_from db db.
Proof. split; [lia |]. intros u Hu. left. exists u. auto. Qed.

Lemma ids_from_filter (db0 db : Database) (p : Todo -> bool) :
  ids_from db0 db -> ids_from db0 (with_todos db (filter p (todos db))).
Proof.
  intros [H1 H2]. split; [exact H1 |].
  intros u Hu. simpl in Hu. apply filter_In in Hu. apply H2. tauto.
Qed.

Lemma ids_from_map (db0 db : Database) (f : Todo -> Todo) :
  (forall t, id (f t) = id t) ->
  ids_from db0 db -> ids_from db0 (with_todos db (map f (todos db))).
Proof.
  intros Hid [H1 H2]. split; [exact H1 |].
  intros u Hu. simpl in Hu. apply in_map_iff in Hu.
  destruct Hu as (t & <- & Ht). rewrite Hid. now apply H2.
Qed.

Lemma ids_from_append (db0 db : Database) (t : Todo) :
  id t = next_rowid db ->
  ids_from db0 db ->
  ids_from db0 (mkDatabase (todos db ++ [t]) (next_rowid db)).
Proof.
  intros Hid [H1 H2]. destruct (next_rowid_fresh db) as [Hseq _].
  split; [simpl; lia |].
  intros u Hu. simpl in Hu. apply in_app_iff in Hu.
  destruct Hu as [Hu | [<- | []]]; [now apply H2 | right; lia].
Qed.

Lemma ids_from_counter (db0 db : Database) (k : Z) :
  sqlite_sequence db <= k -> ids_from db0 db ->
  ids_from db0 (mkDatabase (todos db) k).
Proof.
  intros Hk [H1 H2]. split; [simpl; lia | exact H2].
Qed.

Lemma ids_from_upsert (db0 db : Database) (now : Z) (row : Remote.Row) :
  ids_from db0 db -> ids_from db0 (upsert now row db).
Proof.
  intros H. unfold upsert. cbv zeta. destruct (existsb _ (todos db)).
  - apply (ids_from_counter db0
             (with_todos db (map (on_conflict row) (todos db)))).
    + simpl. destruct (next_rowid_fresh db). lia.
    + apply ids_from_map; [| exact H]. intros t.
      now destruct (on_conflict_frame row t).
  - now apply ids_from_append.
Qed.

Section FreshIds.

Variable assign_id : list Remote.Row -> Z.

Lemma push_one_ids_from (db0 : Database) (c : Todo) (w : World) :
  ids_from db0 (localDb w) ->
  ids_from db0 (localDb (snd (push_one assign_id c w))).
Proof.
  intros Hok. pose proof (push_one_local assign_id c w) as H.
  cbv zeta in H.
  destruct H as [-> | [-> | [-> | (rid & _ & ->)]]].
  - exact Hok.
  - now apply ids_from_filter.
  - apply ids_from_map; [| exact Hok]. intros t.
    now destruct (clear_dirty_frame (id c) t).
  - apply ids_from_map; [apply set_remote_id_id | exact Hok].
Qed.

(** A local id that was handed out before and is no longer in the table
    (its record was erased) is never given to a row again: not by
    [handleAddTodo], and not by the rows a round inserts, however the
    round ends.  The rowid counter never goes back. *)
Theorem local_ids_never_reused (w : World) (k : Z) :
  k <= sqlite_sequence (localDb w) ->
  (forall t, In t (todos (localDb w)) -> id t <> k) ->
  (forall inputValue now,
      let db' := App.handleAddTodo inputValue now (localDb w) in
      sqlite_sequence (localDb w) <= sqlite_sequence db'
      /\ forall u, In u (todos db') -> id u <> k)
  /\ (forall now,
        let db' := localDb (snd (syncWithRemote assign_id now w)) in
        sqlite_sequence (localDb w) <= sqlite_sequence db'
        /\ forall u, In u (todos db') -> id u <> k).
Proof.
  intros Hk Habsent.
  assert (Huse : forall db', ids_from (localDb w) db' ->
                   sqlite_sequence (localDb w) <= sqlite_sequence db'
                   /\ forall u, In u (todos db') -> id u <> k).
  { intros db' [H1 H2]. split; [exact H1 |].
    intros u Hu E. destruct (H2 u Hu) as [(t & Ht & Et) | Hgt].
    - apply (Habsent t Ht). congruence.
    - lia. }
  split.
  - intros s now. apply Huse. unfold App.handleAddTodo.
    destruct (App.blank s); [apply ids_from_refl |].
    apply ids_from_append; [reflexivity | apply ids_from_refl].
  - intros now. apply Huse.
    apply (sync_local_inv assign_id (ids_from (localDb w))).
    + intros c w0. apply push_one_ids_from.
    + intros ids db H. unfold delete_remote_deletes.
      destruct ids; now apply ids_from_filter.
    + intros row db. apply ids_from_upsert.
    + apply ids_from_refl.
Qed.

(* ---------------------------------------------------------------- *)
(** ** What the push leaves of a local row *)

Lemma rows_from_refl (db : Database) : rows_from db db.
Proof. intros u Hu. exists u. auto 6. Qed.

Lemma push_one_rows_from (db0 : Database) (c : Todo) (w : World) :
  rows_from db0 (localDb w) ->
  rows_from db0 (localDb (snd (push_one assign_id c w))).
Proof.
  intros Hok. pose proof (push_one_local assign_id c w) as H.
  cbv zeta in H.
  destruct H as [-> | [-> | [-> | (rid & _ & ->)]]]; intros u Hu; simpl in Hu.
  - now apply Hok.
  - apply filter_In in Hu. apply Hok. tauto.
  - apply in_map_iff in Hu. destruct Hu as (t & <- & Ht).
    destruct (Hok t Ht) as (t0 & H0 & A & B & C & D & E).
    exists t0. unfold clear_dirty.
    destruct (id t =? id c); simpl; auto 6.
  - apply in_map_iff in Hu. destruct Hu as (t & <- & Ht).
    destruct (Hok t Ht) as (t0 & H0 & A & B & C & D & E).
    exists t0. unfold set_remote_id.
    destruct (id t =? id c); simpl; auto 6.
Qed.

(** The push never inserts a local row, never moves the rowid counter and
    never writes a local text, completed flag, tombstone or creation
    time: however it ends, every row it leaves is a former row that
    differs at most in [remote_id] and [dirty]. *)
Theorem push_keeps_user_columns (w : World) :
  let w' := snd (push_phase assign_id w) in
  rows_from (localDb w) (localDb w')
  /\ sqlite_sequence (localDb w') = sqlite_sequence (localDb w)
  /\ (List.length (todos (localDb w')) <= List.length (todos (localDb w)))%nat.
Proof.
  unfold push_phase, bind, all. cbv zeta.
  set (cs := select_local_changes (localDb w)).
  split; [| split].
  - apply (for_each_local_inv _ (rows_from (localDb w))).
    + intros c w0. apply push_one_rows_from.
    + apply rows_from_refl.
  - apply (for_each_local_inv _
             (fun db => sqlite_sequence db = sqlite_sequence (localDb w)));
      [| reflexivity].
    intros c w0 H0. pose proof (push_one_local assign_id c w0) as H.
    cbv zeta in H.
    destruct H as [-> | [-> | [-> | (rid & _ & ->)]]]; exact H0.
  - apply (for_each_local_inv _
             (fun db => (List.length (todos db)
                         <= List.length (todos (localDb w)))%nat));
      [| lia].
    intros c w0 H0. pose proof (push_one_local assign_id c w0) as H.
    cbv zeta in H.
    destruct H as [-> | [-> | [-> | (rid & _ & ->)]]]; simpl;
      rewrite ?length_map; try exact H0.
    pose proof (filter_length_le (fun t => negb (id t =? id c))
                                 (todos (localDb w0))). lia.
Qed.

End FreshIds.

Lemma local_ids_never_reused_witness :
  let w := mkWorld (mkDatabase [eggs_new; tea_new] 4)
                   (quiet_remote remote_b_d) in
  2 <= sqlite_sequence (localDb w) /\
  (forall u,
      In u (todos (App.handleAddTodo "Buy milk" 100 (localDb w))) ->
      id u <> 2) /\
  (forall u,
      In u (todos (localDb (snd (syncWithRemote rowid_after 200 w)))) ->
      id u <> 2).
Proof.
  intros w. split; [simpl; lia |].
  assert (Habsent : forall t, In t (todos (localDb w)) -> id t <> 2).
  { intros t [<- | [<- | []]]; simpl; lia. }
  destruct (local_ids_never_reused rowid_after w 2) as [Hadd Hsync];
    [simpl; lia | exact Habsent |].
  split; [apply Hadd | apply Hsync].
Defined.

(* ------------------------------------------------------------------ *)
(** ** The pull and the remote; a push cut short *)

Section RoundFacts.

Variable assign_id : list Remote.Row -> Z.

(** The pull sends the snapshot query and nothing else, and never
    changes a remote row.  When the query is rejected the pull throws that
    rejection and the local table is left as it was: a failed fetch is not
    taken for an empty snapshot.  When the query gets through the pull
    returns; the pull throws in no other case. *)
Theorem pull_reads_remote_only (now : Z) (w : World) :
  let (out, w') := pull_phase assign_id now w in
  Remote.rows (remoteClient w') = Remote.rows (remoteClient w)
  /\ Remote.calls (remoteClient w')
     = Remote.calls (remoteClient w) ++ [Remote.SelectAll]
  /\ (forall f, hd None (Remote.outages (remoteClient w)) = Some f ->
                out = Threw (RemoteError f) /\ localDb w' = localDb w)
  /\ (hd None (Remote.outages (remoteClient w)) = None ->
      out = Returned tt)
  /\ (forall e, out = Threw e ->
                localDb w' = localDb w
                /\ exists f, e = RemoteError f).
Proof.
  destruct (Remote.outages (remoteClient w)) as [| [f |] later] eqn:E.
  - rewrite pull_phase_served by now rewrite E.
    simpl. repeat split; try reflexivity; discriminate.
  - rewrite (pull_phase_rejected assign_id now w f later E).
    simpl. repeat split; try reflexivity; try discriminate.
    + congruence.
    + exists f. congruence.
  - rewrite pull_phase_served by now rewrite E.
    simpl. repeat split; try reflexivity; discriminate.
Qed.

Lemma push_step_keeps_other (c : Todo) (ts ts' : list Todo) (t : Todo) :
  push_step c ts ts' -> In t ts -> id t <> id c -> In t ts'.
Proof.
  intros Hstep Ht Hne. apply Z.eqb_neq in Hne. destruct Hstep.
  - apply filter_In. split; [exact Ht | now rewrite Hne].
  - apply in_map_iff. exists t. split; [| exact Ht].
    unfold set_remote_id. now rewrite Hne.
  - apply in_map_iff. exists t. split; [| exact Ht].
    unfold clear_dirty. now rewrite Hne.
Qed.

(** A loop that returned has not touched the rows whose local id is not
    that of one of its changes. *)
Lemma for_each_push_keeps_other (cs : list Todo) (w w' : World) (t : Todo) :
  for_each (push_one assign_id) cs w = (Returned tt, w') ->
  In t (todos (localDb w)) ->
  (forall c, In c cs -> id c <> id t) ->
  In t (todos (localDb w')).
Proof.
  revert w. induction cs as [| c rest IH]; intros w Hrun Ht Hne.
  - now injection Hrun as <-.
  - simpl in Hrun. apply bind_inv_returned in Hrun.
    destruct Hrun as ([] & w1 & H1 & H2).
    destruct (push_one_returned assign_id c w w1 H1) as [Hstep _].
    apply (IH w1 H2).
    + apply (push_step_keeps_other c _ _ t Hstep Ht).
      intros E. apply (Hne c); [now left | congruence].
    + intros c' Hc'. apply Hne. now right.
Qed.

Lemma NoDup_app_disjoint (A : Type) (l1 l2 : list A) (x : A) :
  NoDup (l1 ++ l2) -> In x l1 -> In x l2 -> False.
Proof.
  induction l1 as [| a l1 IH]; simpl; intros Hnd H1 H2; [destruct H1 |].
  inversion Hnd as [| ? ? Ha Hrest]; subst.
  destruct H1 as [-> | H1]; [| now apply IH].
  apply Ha, in_app_iff. now right.
Qed.

(** Nothing is lost when a push fails.  In a table with unique local ids,
    when the push of one local change throws, that change and all the
    changes that were still to come are in the local table exactly as
    they were, so the next round selects them again. *)
Theorem failed_push_keeps_pending (w w1 w2 : World)
        (pre post : list Todo) (c : Todo) (e : Exn) :
  ids_unique (localDb w) ->
  select_local_changes (localDb w) = pre ++ c :: post ->
  for_each (push_one assign_id) pre w = (Returned tt, w1) ->
  push_one assign_id c w1 = (Threw e, w2) ->
  forall t, In t (c :: post) ->
            In t (select_local_changes (localDb w2)).
Proof.
  intros Huniq Hsel Hpre Hc t Ht.
  assert (Hin : In t (select_local_changes (localDb w))).
  { rewrite Hsel. apply in_app_iff. now right. }
  apply filter_In in Hin. destruct Hin as [Hin Hchg].
  apply filter_In. split; [| exact Hchg].
  rewrite (push_one_threw assign_id c w1 w2 e Hc).
  apply (for_each_push_keeps_other pre w w1 t Hpre Hin).
  intros c0 Hc0 E.
  assert (Hnd : NoDup (map id (pre ++ c :: post))).
  { rewrite <- Hsel. now apply unique_ids_filter. }
  rewrite map_app in Hnd.
  apply (NoDup_app_disjoint _ _ _ (id t) Hnd).
  - rewrite <- E. now apply in_map.
  - now apply in_map.
Qed.

End RoundFacts.

Lemma failed_push_keeps_pending_witness :
  let w := mkWorld (mkDatabase [eggs_new; tea_new] 4)
                   (Remote.mkClient [] [None; Some Remote.Unavailable] []) in
  let w1 := snd (push_one rowid_after eggs_new w) in
  let w2 := snd (push_one rowid_after tea_new w1) in
  ids_unique (localDb w) /\
  fst (push_one rowid_after tea_new w1)
  = Threw (RemoteError Remote.Unavailable) /\
  In tea_new (select_local_changes (localDb w2)).
Proof.
  intros w w1 w2.
  assert (Hu : ids_unique (localDb w)).
  { unfold ids_unique. simpl. repeat constructor; simpl; intuition lia. }
  split; [exact Hu | split; [reflexivity |]].
  apply (failed_push_keeps_pending rowid_after w w1 w2
           [eggs_new] [] tea_new (RemoteError Remote.Unavailable) Hu);
    [reflexivity | reflexivity | reflexivity | now left].
Defined.

(* ------------------------------------------------------------------ *)
(** ** After a round that returned *)

Section Mirror.

Variable assign_id : list Remote.Row -> Z.

Lemma push_one_dirty_bit (c : Todo) (w : World) :
  (forall u, In u (todos (localDb w)) -> dirty u = 0 \/ dirty u = 1) ->
  forall u, In u (todos (localDb (snd (push_one assign_id c w)))) ->
            dirty u = 0 \/ dirty u = 1.
Proof.
  intros Hok. pose proof (push_one_local assign_id c w) as H.
  cbv zeta in H.
  destruct H as [-> | [-> | [-> | (rid & _ & ->)]]]; intros u Hu; simpl in Hu.
  - now apply Hok.
  - apply filter_In in Hu. apply Hok. tauto.
  - apply in_map_iff in Hu. destruct Hu as (t & <- & Ht).
    unfold clear_dirty. destruct (id t =? id c); simpl; auto.
  - apply in_map_iff in Hu. destruct Hu as (t & <- & Ht).
    unfold set_remote_id. destruct (id t =? id c); simpl; auto.
Qed.

(** After a push that returned, on a table whose flags were as the app
    writes them, every row is pushed, clean and not tombstoned. *)
Lemma push_phase_cleans (w wp : World) :
  flags_ok (localDb w) ->
  push_phase assign_id w = (Returned tt, wp) ->
  forall u, In u (todos (localDb wp)) ->
            remote_id u <> None /\ dirty u = 0 /\ is_deleted u <> 1.
Proof.
  intros Hflags Hpush u Hu.
  destruct (push_phase_settles assign_id w wp Hpush u Hu) as [Hr Hd].
  assert (Hbits : forall v, In v (todos (localDb wp)) ->
                            dirty v = 0 \/ dirty v = 1).
  { replace wp with (snd (push_phase assign_id w)) by now rewrite Hpush.
    unfold push_phase, bind, all. simpl.
    apply (for_each_local_inv _
             (fun db => forall v, In v (todos db) ->
                                  dirty v = 0 \/ dirty v = 1)).
    - intros c w0. apply push_one_dirty_bit.
    - intros v Hv. now apply Hflags. }
  pose proof (Hbits u Hu) as Hbit.
  split; [exact Hr | split; [lia |]].
  intros Hdel.
  assert (Hfrom : rows_from (localDb w) (localDb wp)).
  { replace wp with (snd (push_phase assign_id w)) by now rewrite Hpush.
    unfold push_phase, bind, all. simpl.
    apply (for_each_local_inv _ (rows_from (localDb w))).
    - intros c w0. apply push_one_rows_from.
    - apply rows_from_refl. }
  destruct (Hfrom u Hu) as (t & Ht & Eid & _ & _ & Edel & _).
  destruct (Hflags t Ht) as [_ Htomb].
  assert (Hsel : In t (select_local_changes (localDb w))).
  { apply filter_In. split; [exact Ht |]. unfold is_local_change.
    rewrite Htomb by congruence. apply orb_true_r. }
  unfold push_phase, bind, all in Hpush.
  apply (for_each_push_erases assign_id _ w wp t u Hpush Hsel);
    congruence.
Qed.

(** After a round that returned, on a table whose flags were as the app
    writes them, the local table mirrors the remote: every local row is
    clean, not tombstoned and shows a remote row of its remote id, and
    every remote row is held by a local row. *)
Theorem round_mirrors_remote (now : Z) (w w1 : World) :
  flags_ok (localDb w) ->
  syncWithRemote assign_id now w = (Returned true, w1) ->
  (forall u, In u (todos (localDb w1)) ->
             dirty u = 0 /\ is_deleted u <> 1
             /\ exists row,
                 In row (Remote.rows (remoteClient w1)) /\ shows u row)
  /\ (forall row, In row (Remote.rows (remoteClient w1)) ->
                  exists u, In u (todos (localDb w1))
                            /\ remote_id u = Some (Remote.id row)).
Proof.
  intros Hflags Hsync.
  destruct (sync_returned_inv assign_id now w w1 Hsync)
    as (wp & Hpush & Hpull).
  pose proof (push_phase_cleans w wp Hflags Hpush) as Hclean.
  pose proof (pull_returned_fate assign_id now wp w1 Hpull) as Hfate.
  rewrite (pull_phase_served assign_id now wp Hfate) in Hpull.
  injection Hpull as <-. simpl.
  set (snapshot := Remote.rows (remoteClient wp)) in *.
  split.
  - intros u Hu.
    assert (Hu' := Hu). apply upsert_all_in in Hu'.
    assert (Hfacts : dirty u = 0 /\ is_deleted u <> 1
                     /\ exists k, remote_id u = Some k
                                  /\ In k (Remote.ids snapshot)).
    { destruct Hu' as [(t & Ht & ->) | (Hd & Hdel & row & Hrow & Hr)].
      - apply in_delete_remote_deletes in Ht. destruct Ht as [Ht Hkeep].
        destruct (Hclean t Ht) as (Hr & Hd & Hdel).
        destruct (merged_frame snapshot t) as (_ & B & C & D & _).
        rewrite B, C, D. split; [exact Hd | split; [exact Hdel |]].
        destruct (remote_id t) as [k |] eqn:Ek; [| congruence].
        exists k. split; [reflexivity |].
        unfold gone_remotely in Hkeep. rewrite Ek, Hd in Hkeep.
        simpl in Hkeep. rewrite andb_true_r in Hkeep.
        apply negb_false_iff in Hkeep. now apply mem_In.
      - split; [exact Hd | split; [lia |]].
        exists (Remote.id row). split; [exact Hr |].
        unfold Remote.ids. now apply in_map. }
    destruct Hfacts as (Hd & Hdel & k & Hr & Hk).
    split; [exact Hd | split; [exact Hdel |]].
    destruct (merged_clean snapshot u k Hd Hr Hk) as (row & H1 & H2 & H3 & H4).
    rewrite (upsert_all_fixed now snapshot _ u Hu) in H3, H4.
    exists row. split; [exact H1 |]. unfold shows. subst k. auto.
  - intros row Hrow. now apply upsert_all_present.
Qed.

End Mirror.

Lemma busy_world_flags_ok : flags_ok (localDb busy_world).
Proof.
  intros u [<- | [<- | [<- | []]]]; simpl; split; auto; discriminate.
Qed.

Lemma round_mirrors_remote_witness :
  let w1 := snd (syncWithRemote rowid_after 200 busy_world) in
  flags_ok (localDb busy_world) /\
  syncWithRemote rowid_after 200 busy_world = (Returned true, w1) /\
  forall u, In u (todos (localDb w1)) ->
            dirty u = 0 /\ is_deleted u <> 1
            /\ exists row,
                In row (Remote.rows (remoteClient w1)) /\ shows u row.
Proof.
  intros w1. split; [exact busy_world_flags_ok | split; [reflexivity |]].
  apply (round_mirrors_remote rowid_after 200 busy_world w1
           busy_world_flags_ok eq_refl).
Defined.

(* ------------------------------------------------------------------ *)
(** ** The flags the app writes *)

Lemma flags_ok_filter (p : Todo -> bool) (db : Database) :
  flags_ok db -> flags_ok (with_todos db (filter p (todos db))).
Proof.
  intros H u Hu. simpl in Hu. apply filter_In in Hu. apply H. tauto.
Qed.

Lemma flags_ok_map (f : Todo -> Todo) (db : Database) :
  (forall t, In t (todos db) ->
             (dirty (f t) = 0 \/ dirty (f t) = 1)
             /\ (is_deleted (f t) = 1 -> dirty (f t) = 1)) ->
  flags_ok (with_todos db (map f (todos db))).
Proof.
  intros H u Hu. simpl in Hu. apply in_map_iff in Hu.
  destruct Hu as (t & <- & Ht). now apply H.
Qed.

Lemma flags_ok_filter_delete (remoteIds : list Z) (db : Database) :
  flags_ok db -> flags_ok (delete_remote_deletes remoteIds db).
Proof.
  intros H. unfold delete_remote_deletes.
  destruct remoteIds; now apply flags_ok_filter.
Qed.

Lemma flags_ok_upsert (now : Z) (row : Remote.Row) (db : Database) :
  flags_ok db -> flags_ok (upsert now row db).
Proof.
  intros H u Hu. rewrite upsert_todos in Hu. apply in_app_iff in Hu.
  destruct Hu as [Hu | Hu].
  - apply in_map_iff in Hu. destruct Hu as (t & <- & Ht).
    destruct (on_conflict_frame row t) as (_ & _ & C & D & _).
    rewrite C, D. now apply H.
  - destruct (existsb _ _); [destruct Hu |].
    destruct Hu as [<- | []]. simpl. split; [now left | discriminate].
Qed.

Lemma flags_ok_upsert_all (now : Z) (snapshot : list Remote.Row)
      (db : Database) :
  flags_ok db -> flags_ok (upsert_all now snapshot db).
Proof.
  revert db. induction snapshot as [| r rest IH]; intros db H; simpl.
  - exact H.
  - apply IH. now apply flags_ok_upsert.
Qed.

(** The three mutations of the app keep the flags well formed: [dirty] is
    0 or 1, and a tombstoned row is dirty. *)
Theorem handlers_keep_flags_ok (db : Database) :
  flags_ok db ->
  (forall inputValue now, flags_ok (App.handleAddTodo inputValue now db))
  /\ (forall key currentStatus,
         flags_ok (App.handleToggleTodo key currentStatus db))
  /\ (forall key, flags_ok (App.handleDeleteTodo key db)).
Proof.
  intros Hok. split; [| split].
  - intros s now. unfold App.handleAddTodo.
    destruct (App.blank s); [exact Hok |].
    intros u Hu. simpl in Hu. apply in_app_iff in Hu.
    destruct Hu as [Hu | [<- | []]]; [now apply Hok |].
    simpl. split; [now left | discriminate].
  - intros key st. apply flags_ok_map. intros t Ht.
    unfold App.toggled. destruct (id t =? key); simpl; [auto |].
    now apply Hok.
  - intros key. apply flags_ok_map. intros t Ht.
    unfold App.tombstoned. destruct (id t =? key); simpl; [auto |].
    now apply Hok.
Qed.

Lemma unique_id_same_row (ts : list Todo) (a b : Todo) :
  NoDup (map id ts) -> In a ts -> In b ts -> id a = id b -> a = b.
Proof.
  induction ts as [| x ts IH]; simpl; intros Hnd Ha Hb E; [destruct Ha |].
  inversion Hnd as [| ? ? Hx Hrest]; subst.
  destruct Ha as [-> | Ha], Hb as [-> | Hb]; auto.
  - destruct Hx. rewrite E. now apply in_map.
  - destruct Hx. rewrite <- E. now apply in_map.
Qed.

Section Flags.

Variable assign_id : list Remote.Row -> Z.

(** The push of a tombstoned change erases or does nothing. *)
Lemma push_one_local_tombstone (c : Todo) (w : World) :
  is_deleted c = 1 ->
  localDb (snd (push_one assign_id c w)) = localDb w
  \/ localDb (snd (push_one assign_id c w))
     = delete_where_id (id c) (localDb w).
Proof.
  intros Hdel. unfold push_one. rewrite Hdel. simpl.
  destruct (truthy (remote_id c)) as [k |];
    unfold bind, execute, run, ret;
    destruct (Remote.outages (remoteClient w)) as [| [f |] later]; simpl;
    auto.
Qed.

Lemma push_one_ids_unique (c : Todo) (w : World) :
  ids_unique (localDb w) ->
  ids_unique (localDb (snd (push_one assign_id c w))).
Proof.
  intros Hok. pose proof (push_one_local assign_id c w) as H.
  cbv zeta in H. unfold ids_unique in *.
  destruct H as [-> | [-> | [-> | (rid & _ & ->)]]]; simpl.
  - exact Hok.
  - now apply unique_ids_filter.
  - rewrite map_map.
    rewrite (map_ext _ id (fun t => proj1 (clear_dirty_frame (id c) t))).
    exact Hok.
  - rewrite map_map.
    rewrite (map_ext _ id (set_remote_id_id rid (id c))). exact Hok.
Qed.

Lemma push_one_keeps_other (c : Todo) (w : World) (t : Todo) :
  In t (todos (localDb w)) -> id t <> id c ->
  In t (todos (localDb (snd (push_one assign_id c w)))).
Proof.
  intros Ht Hne. apply Z.eqb_neq in Hne.
  pose proof (push_one_local assign_id c w) as H. cbv zeta in H.
  destruct H as [-> | [-> | [-> | (rid & _ & ->)]]]; simpl.
  - exact Ht.
  - apply filter_In. split; [exact Ht | now rewrite Hne].
  - apply in_map_iff. exists t. split; [| exact Ht].
    unfold clear_dirty. now rewrite Hne.
  - apply in_map_iff. exists t. split; [| exact Ht].
    unfold set_remote_id. now rewrite Hne.
Qed.

Lemma push_one_flags_ok (c : Todo) (w : World) :
  ids_unique (localDb w) -> flags_ok (localDb w) ->
  In c (todos (localDb w)) ->
  flags_ok (localDb (snd (push_one assign_id c w))).
Proof.
  intros Huniq Hok Hc.
  destruct (Z.eq_dec (is_deleted c) 1) as [Hdel | Hlive].
  - destruct (push_one_local_tombstone c w Hdel) as [-> | ->];
      [exact Hok | now apply flags_ok_filter].
  - assert (Hrow : forall t, In t (todos (localDb w)) ->
                             id t = id c -> is_deleted t <> 1).
    { intros t Ht E.
      now rewrite (unique_id_same_row _ t c Huniq Ht Hc E). }
    pose proof (push_one_local assign_id c w) as H. cbv zeta in H.
    destruct H as [-> | [-> | [-> | (rid & _ & ->)]]].
    + exact Hok.
    + now apply flags_ok_filter.
    + apply flags_ok_map. intros t Ht. unfold clear_dirty.
      destruct (id t =? id c) eqn:E; simpl; [| now apply Hok].
      apply Z.eqb_eq in E. split; [now left |].
      intros Hd. now destruct (Hrow t Ht E).
    + apply flags_ok_map. intros t Ht. unfold set_remote_id.
      destruct (id t =? id c) eqn:E; simpl; [| now apply Hok].
      apply Z.eqb_eq in E. split; [now left |].
      intros Hd. now destruct (Hrow t Ht E).
Qed.

Lemma for_each_push_flags_ok (cs : list Todo) (w : World) :
  ids_unique (localDb w) -> flags_ok (localDb w) ->
  NoDup (map id cs) ->
  (forall c, In c cs -> In c (todos (localDb w))) ->
  flags_ok (localDb (snd (for_each (push_one assign_id) cs w))).
Proof.
  revert w. induction cs as [| c rest IH]; intros w Huniq Hok Hnd Hin.
  - exact Hok.
  - simpl. unfold bind.
    pose proof (push_one_ids_unique c w Huniq) as Hu1.
    pose proof (push_one_flags_ok c w Huniq Hok (Hin c (or_introl eq_refl)))
      as Hf1.
    assert (Hin1 : forall c', In c' rest ->
                     In c' (todos (localDb (snd (push_one assign_id c w))))).
    { intros c' Hc'. apply push_one_keeps_other; [apply Hin; now right |].
      simpl in Hnd. inversion Hnd as [| ? ? Hx _]; subst.
      intros E. apply Hx. rewrite <- E. now apply in_map. }
    destruct (push_one assign_id c w) as [[[] | e] w1]; simpl in *;
      [| exact Hf1].
    apply IH; auto. now inversion Hnd.
Qed.

(** In a table with unique local ids a round keeps the flags well formed,
    whether it returns or throws: it leaves [dirty] at 0 or 1 and never
    clears the dirty flag of a tombstoned row. *)
Theorem sync_keeps_flags_ok (now : Z) (w : World) :
  ids_unique (localDb w) ->
  flags_ok (localDb w) ->
  flags_ok (localDb (snd (syncWithRemote assign_id now w))).
Proof.
  intros Huniq Hok.
  assert (H1 : flags_ok (localDb (snd (push_phase assign_id w)))).
  { unfold push_phase, bind, all. simpl.
    apply for_each_push_flags_ok; auto.
    - now apply unique_ids_filter.
    - intros c Hc. apply filter_In in Hc. tauto. }
  unfold syncWithRemote, bind at 1.
  destruct (push_phase assign_id w) as [[[] | e] w1]; simpl in *;
    [| exact H1].
  unfold bind at 1.
  assert (H2 : flags_ok (localDb (snd (pull_phase assign_id now w1)))).
  { destruct (Remote.outages (remoteClient w1)) as [| [f |] later] eqn:E.
    - rewrite pull_phase_served by now rewrite E.
      simpl. now apply flags_ok_upsert_all, flags_ok_filter_delete.
    - now rewrite (pull_phase_rejected assign_id now w1 f later E).
    - rewrite pull_phase_served by now rewrite E.
      simpl. now apply flags_ok_upsert_all, flags_ok_filter_delete. }
  destruct (pull_phase assign_id now w1) as [[[] | e] w2]; exact H2.
Qed.

End Flags.

(* ------------------------------------------------------------------ *)
(** ** The first round on an empty table *)

Lemma upsert_all_new (now : Z) (snapshot : list Remote.Row)
      (db : Database) :
  NoDup (Remote.ids snapshot) ->
  (forall row u, In row snapshot -> In u (todos db) ->
                 remote_id u <> Some (Remote.id row)) ->
  exists added,
    todos (upsert_all now snapshot db) = todos db ++ added
    /\ Forall2 (downloaded now) added snapshot.
Proof.
  revert db. induction snapshot as [| r rest IH]; intros db Hnd Hnew.
  - exists []. simpl. rewrite app_nil_r. auto.
  - change (upsert_all now (r :: rest) db)
      with (upsert_all now rest (upsert now r db)).
    simpl in Hnd. inversion Hnd as [| ? ? Hr Hrest]; subst.
    assert (E : existsb (fun t => opt_eqb (remote_id t) (Remote.id r))
                        (todos db) = false).
    { apply not_true_iff_false. intros X. apply existsb_exists in X.
      destruct X as (u & Hu & Heq). apply opt_eqb_eq in Heq.
      now apply (Hnew r u (or_introl eq_refl) Hu). }
    assert (Hup : todos (upsert now r db)
                  = todos db ++ [pulled_row (next_rowid db) now r]).
    { unfold upsert. now rewrite E. }
    destruct (IH (upsert now r db) Hrest) as (added & Heq & Hall).
    + intros row u Hrow Hu. rewrite Hup in Hu. apply in_app_iff in Hu.
      destruct Hu as [Hu | [<- | []]].
      * apply Hnew; [now right | exact Hu].
      * simpl. intros X. injection X as X. apply Hr. rewrite X.
        unfold Remote.ids. now apply in_map.
    + exists (pulled_row (next_rowid db) now r :: added). split.
      * rewrite Heq, Hup, <- app_assoc. reflexivity.
      * constructor; [| exact Hall].
        unfold downloaded, shows. simpl. auto 8.
Qed.

Section FirstRound.

Variable assign_id : list Remote.Row -> Z.

(** The round the app runs at start-up, on a local table with no rows
    and a remote whose ids are distinct: when the snapshot call gets
    through the round returns, sends that one call only, leaves the
    remote rows alone and fills the local table with one clean row per
    remote row, in the order of the snapshot. *)
Theorem first_round_downloads (now : Z) (w : World) :
  todos (localDb w) = [] ->
  NoDup (Remote.ids (Remote.rows (remoteClient w))) ->
  hd None (Remote.outages (remoteClient w)) = None ->
  exists w1,
    syncWithRemote assign_id now w = (Returned true, w1)
    /\ Remote.rows (remoteClient w1) = Remote.rows (remoteClient w)
    /\ Remote.calls (remoteClient w1)
       = Remote.calls (remoteClient w) ++ [Remote.SelectAll]
    /\ Forall2 (downloaded now) (todos (localDb w1))
               (Remote.rows (remoteClient w)).
Proof.
  intros Hempty Hnd Hfate.
  assert (Hpush : push_phase assign_id w = (Returned tt, w)).
  { unfold push_phase, bind, all, select_local_changes.
    rewrite Hempty. reflexivity. }
  unfold syncWithRemote, bind at 1. rewrite Hpush. unfold bind at 1.
  rewrite (pull_phase_served assign_id now w Hfate).
  eexists. split; [reflexivity |]. simpl.
  split; [reflexivity | split; [reflexivity |]].
  set (snapshot := Remote.rows (remoteClient w)) in *.
  assert (Hdel : todos (delete_remote_deletes (Remote.ids snapshot)
                                              (localDb w)) = []).
  { unfold delete_remote_deletes.
    destruct (Remote.ids snapshot); simpl; now rewrite Hempty. }
  destruct (upsert_all_new now snapshot
              (delete_remote_deletes (Remote.ids snapshot) (localDb w)) Hnd)
    as (added & Heq & Hall).
  - intros row u _ Hu. rewrite Hdel in Hu. destruct Hu.
  - rewrite Heq, Hdel. exact Hall.
Qed.

(* ---------------------------------------------------------------- *)
(** ** The push of a new and of an edited record *)

(** The push of a record that was never pushed and is not tombstoned,
    when it returns: the remote has gained one row with the record's text
    and completed flag, under the id the remote assigned, and the local
    record holds that id and is clean, its other columns as before. *)
Theorem push_new_record (c : Todo) (w w' : World) :
  In c (todos (localDb w)) ->
  is_deleted c <> 1 ->
  truthy (remote_id c) = None ->
  push_one assign_id c w = (Returned tt, w') ->
  let rid := assign_id (Remote.rows (remoteClient w)) in
  Remote.rows (remoteClient w')
  = Remote.rows (remoteClient w)
    ++ [Remote.mkRow rid (text c) (completed c)]
  /\ Remote.calls (remoteClient w')
     = Remote.calls (remoteClient w)
       ++ [Remote.Insert (text c) (completed c)]
  /\ In (pushed_as (Some rid) c) (todos (localDb w'))
  /\ forall t, In t (todos (localDb w)) -> id t <> id c ->
               In t (todos (localDb w')).
Proof.
  intros Hc Hlive Htr Hrun. unfold push_one in Hrun.
  apply Z.eqb_neq in Hlive. rewrite Hlive, Htr in Hrun.
  unfold bind, execute, run_update_remote_id, throw in Hrun.
  assert (Hset : forall rid,
             In (pushed_as (Some rid) c)
                (map (set_remote_id rid (id c)) (todos (localDb w)))
             /\ forall t, In t (todos (localDb w)) -> id t <> id c ->
                          In t (map (set_remote_id rid (id c))
                                    (todos (localDb w)))).
  { intros rid. split.
    - apply in_map_iff. exists c. split; [| exact Hc].
      unfold set_remote_id. now rewrite Z.eqb_refl.
    - intros t Ht Hne. apply in_map_iff. exists t. split; [| exact Ht].
      unfold set_remote_id. apply Z.eqb_neq in Hne. now rewrite Hne. }
  destruct (Remote.outages (remoteClient w)) as [| [f |] later];
    simpl in Hrun; try discriminate;
    destruct (remote_id_taken _ _ _); try discriminate;
    injection Hrun as <-; simpl;
    (split; [reflexivity | split; [reflexivity | apply Hset]]).
Qed.

(** The push of an edited record (pushed before, dirty, not tombstoned),
    when it returns: every remote row of its remote id now has the local
    text and completed flag, the other remote rows are as they were, no
    remote row is created when the remote no longer has that id, and the
    local record is clean, its other columns as before. *)
Theorem push_edited_record (c : Todo) (w w' : World) (k : Z) :
  In c (todos (localDb w)) ->
  is_deleted c <> 1 ->
  truthy (remote_id c) = Some k ->
  push_one assign_id c w = (Returned tt, w') ->
  remote_id c = Some k
  /\ Remote.ids (Remote.rows (remoteClient w'))
     = Remote.ids (Remote.rows (remoteClient w))
  /\ (forall row, In row (Remote.rows (remoteClient w')) ->
                  Remote.id row = k ->
                  Remote.text row = text c
                  /\ Remote.completed row = completed c)
  /\ (forall row, Remote.id row <> k ->
                  (In row (Remote.rows (remoteClient w')) <->
                   In row (Remote.rows (remoteClient w))))
  /\ In (pushed_as (remote_id c) c) (todos (localDb w')).
Proof.
  intros Hc Hlive Htr Hrun. unfold push_one in Hrun.
  apply Z.eqb_neq in Hlive. rewrite Hlive, Htr in Hrun.
  assert (Hk : remote_id c = Some k).
  { unfold truthy in Htr. destruct (remote_id c) as [v |]; [| discriminate].
    destruct (v =? 0); [discriminate | exact Htr]. }
  split; [exact Hk |].
  assert (Hrows : Remote.rows (remoteClient w')
                  = Remote.update_where_id (text c) (completed c) k
                      (Remote.rows (remoteClient w))
                  /\ todos (localDb w')
                     = map (clear_dirty (id c)) (todos (localDb w))).
  { unfold bind, execute, run in Hrun.
    destruct (Remote.outages (remoteClient w)) as [| [f |] later];
      simpl in Hrun; try discriminate; injection Hrun as <-; auto. }
  destruct Hrows as [Hr Hl]. rewrite Hr, Hl.
  unfold Remote.update_where_id, Remote.ids.
  split; [| split; [| split]].
  - rewrite map_map. apply map_ext. intros r.
    now destruct (Remote.id r =? k).
  - intros row Hrow E. apply in_map_iff in Hrow.
    destruct Hrow as (r & <- & _).
    destruct (Remote.id r =? k) eqn:Er; simpl in *; auto.
    apply Z.eqb_neq in Er. contradiction.
  - intros row Hne. rewrite in_map_iff. split.
    + intros (r & <- & Hin).
      destruct (Remote.id r =? k) eqn:Er; simpl in *; [| exact Hin].
      apply Z.eqb_eq in Er. contradiction.
    + intros Hin. exists row. split; [| exact Hin].
      apply Z.eqb_neq in Hne. now rewrite Hne.
  - apply in_map_iff. exists c. split; [| exact Hc].
    unfold clear_dirty. now rewrite Z.eqb_refl.
Qed.

End FirstRound.

(* ------------------------------------------------------------------ *)
(** ** The list on screen after a local mutation *)

Lemma order_by_sorted (ts : list Todo) :
  StronglySorted newer_first (App.order_by_created_at_desc ts).
Proof.
  induction ts as [| t rest IH]; simpl; [constructor |].
  now apply place_sorted.
Qed.

Lemma place_front (t : Todo) (l : list Todo) :
  (forall x, In x l -> created_at x <= created_at t) ->
  App.place t l = t :: l.
Proof.
  destruct l as [| u rest]; intros H; simpl; [reflexivity |].
  assert (E : (created_at u <=? created_at t) = true)
    by (apply Z.leb_le, H; now left).
  now rewrite E.
Qed.

Lemma place_filter (p : Todo -> bool) (t : Todo) (l : list Todo) :
  StronglySorted newer_first l ->
  filter p (App.place t l)
  = if p t then App.place t (filter p l) else filter p l.
Proof.
  induction l as [| u rest IH]; intros Hs.
  - simpl. now destruct (p t).
  - inversion Hs as [| ? ? Hrest Hall]; subst.
    simpl. destruct (created_at u <=? created_at t) eqn:E.
    + apply Z.leb_le in E. simpl. destruct (p t) eqn:Pt; [| reflexivity].
      rewrite place_front; [reflexivity |].
      intros x Hx.
      assert (Hx' : In x (u :: rest)).
      { destruct (p u); [| right]; simpl in Hx.
        - destruct Hx as [<- | Hx]; [now left | right].
          apply filter_In in Hx. tauto.
        - apply filter_In in Hx. tauto. }
      destruct Hx' as [<- | Hx']; [exact E |].
      rewrite Forall_forall in Hall. specialize (Hall x Hx').
      unfold newer_first in Hall. lia.
    + simpl. rewrite (IH Hrest).
      destruct (p u) eqn:Pu, (p t) eqn:Pt; simpl; try reflexivity.
      now rewrite E.
Qed.

Lemma order_by_filter (p : Todo -> bool) (ts : list Todo) :
  App.order_by_created_at_desc (filter p ts)
  = filter p (App.order_by_created_at_desc ts).
Proof.
  induction ts as [| t rest IH]; simpl; [reflexivity |].
  rewrite place_filter by apply order_by_sorted.
  destruct (p t); simpl; now rewrite IH.
Qed.




(** After [handleDeleteTodo] the list on screen is the former list
    without the records of that local id, in the same order, although the
    tombstoned record is still in the table. *)
Theorem view_after_delete (key : Z) (db : Database) :
  App.fetchTodos (App.handleDeleteTodo key db)
  = filter (fun t => negb (id t =? key)) (App.fetchTodos db)
  /\ List.length (todos (App.handleDeleteTodo key db))
     = List.length (todos db).
Proof.
  split; [| simpl; apply length_map].
  unfold App.fetchTodos. rewrite <- order_by_filter. f_equal.
  unfold App.handleDeleteTodo. simpl.
  induction (todos db) as [| t rest IH]; simpl; [reflexivity |].
  rewrite IH. unfold App.tombstoned.
  destruct (id t =? key) eqn:E; simpl;
    destruct (is_deleted t =? 0) eqn:D; simpl; rewrite ?E; reflexivity.
Qed.


Lemma order_by_newest_last (x : Todo) (l : list Todo) :
  (forall t, In t l -> created_at t < created_at x) ->
  fold_right App.place [x] l = x :: App.order_by_created_at_desc l.
Proof.
  induction l as [| t rest IH]; intros H; simpl; [reflexivity |].
  rewrite IH by (intros u Hu; apply H; now right). simpl.
  assert (E : (created_at x <=? created_at t) = false)
    by (apply Z.leb_gt, H; now left).
  now rewrite E.
Qed.

(** After [handleAddTodo] with an input that is not blank, at a time
    later than the creation of every record on screen, the new record is
    at the top of the list and the rest of the list is as before. *)
Theorem view_after_add (inputValue : string) (now : Z) (db : Database) :
  App.blank inputValue = false ->
  (forall t, In t (App.fetchTodos db) -> created_at t < now) ->
  App.fetchTodos (App.handleAddTodo inputValue now db)
  = mkTodo (next_rowid db) None inputValue 0 0 0 now :: App.fetchTodos db.
Proof.
  intros Hblank Hnew.
  unfold App.handleAddTodo. rewrite Hblank.
  unfold App.fetchTodos, App.insert_text in *. simpl.
  rewrite filter_app. simpl.
  unfold App.order_by_created_at_desc in *. rewrite fold_right_app. simpl.
  apply order_by_newest_last. intros t Ht. simpl.
  apply Hnew.
  clear Hnew.
  induction (filter (fun t0 => is_deleted t0 =? 0) (todos db))
    as [| u rest IH]; [destruct Ht |].
  simpl. apply (Permutation_in _ (Permutation_sym (place_perm u _))).
  destruct Ht as [<- | Ht]; [now left | right; now apply IH].
Qed.

Lemma view_after_add_witness :
  let db := App.handleAddTodo "first" 50 getDb in
  App.blank "second" = false /\
  map text (App.fetchTodos (App.handleAddTodo "second" 60 db))
  = ["second"; "first"]%string.
Proof.
  intros db. split; [reflexivity |].
  rewrite (view_after_add "second" 60 db eq_refl).
  - reflexivity.
  - intros t [<- | []]. simpl. lia.
Defined.

Lemma handlers_keep_flags_ok_witness :
  flags_ok getDb /\
  flags_ok (App.handleDeleteTodo 1 (App.handleAddTodo "Buy milk" 100 getDb)).
Proof.
  assert (H0 : flags_ok getDb) by (intros u []).
  split; [exact H0 |].
  assert (H1 : flags_ok (App.handleAddTodo "Buy milk" 100 getDb)).
  { intros u [<- | []]. simpl. split; [now left | discriminate]. }
  apply (handlers_keep_flags_ok _ H1).
Defined.

Lemma sync_keeps_flags_ok_witness :
  ids_unique (localDb busy_world) /\
  flags_ok (localDb busy_world) /\
  flags_ok (localDb (snd (syncWithRemote rowid_after 200 busy_world))).
Proof.
  assert (Hu : ids_unique (localDb busy_world)).
  { unfold ids_unique. simpl. repeat constructor; simpl; intuition lia. }
  split; [exact Hu | split; [exact busy_world_flags_ok |]].
  apply (sync_keeps_flags_ok rowid_after 200 busy_world Hu
           busy_world_flags_ok).
Defined.

Lemma first_round_downloads_witness :
  let w := mkWorld getDb (quiet_remote remote_b_d) in
  todos (localDb w) = [] /\
  NoDup (Remote.ids (Remote.rows (remoteClient w))) /\
  exists w1,
    syncWithRemote rowid_after 200 w = (Returned true, w1)
    /\ Forall2 (downloaded 200) (todos (localDb w1)) remote_b_d.
Proof.
  intros w.
  assert (Hnd : NoDup (Remote.ids (Remote.rows (remoteClient w)))).
  { simpl. repeat constructor; simpl; intuition lia. }
  split; [reflexivity | split; [exact Hnd |]].
  destruct (first_round_downloads rowid_after 200 w eq_refl Hnd eq_refl)
    as (w1 & H1 & _ & _ & H2).
  exists w1. split; assumption.
Defined.

Lemma push_new_record_witness :
  let w := mkWorld (mkDatabase [eggs_new; tea_new] 4)
                   (quiet_remote remote_b_d) in
  let w' := snd (push_one rowid_after eggs_new w) in
  In eggs_new (todos (localDb w)) /\
  push_one rowid_after eggs_new w = (Returned tt, w') /\
  Remote.rows (remoteClient w')
  = remote_b_d ++ [Remote.mkRow 5 "Buy eggs" 0] /\
  In (pushed_as (Some 5) eggs_new) (todos (localDb w')).
Proof.
  intros w w'.
  assert (Hin : In eggs_new (todos (localDb w))) by (now left).
  split; [exact Hin | split; [reflexivity |]].
  destruct (push_new_record rowid_after eggs_new w w' Hin)
    as (H1 & _ & H3 & _); [discriminate | reflexivity | reflexivity |].
  split; [exact H1 | exact H3].
Defined.

Lemma push_edited_record_witness :
  let w := mkWorld (mkDatabase [a_dirty; c_clean] 2)
                   (quiet_remote remote_b_d) in
  let w' := snd (push_one rowid_after a_dirty w) in
  In a_dirty (todos (localDb w)) /\
  push_one rowid_after a_dirty w = (Returned tt, w') /\
  (forall row, In row (Remote.rows (remoteClient w')) ->
               Remote.id row = 3 ->
               Remote.text row = "A"%string /\ Remote.completed row = 0) /\
  In (pushed_as (Some 3) a_dirty) (todos (localDb w')).
Proof.
  intros w w'.
  assert (Hin : In a_dirty (todos (localDb w))) by (now left).
  split; [exact Hin | split; [reflexivity |]].
  destruct (push_edited_record rowid_after a_dirty w w' 3 Hin)
    as (_ & _ & H3 & _ & H5); [discriminate | reflexivity | reflexivity |].
  split; [exact H3 | exact H5].
Defined.

(* ------------------------------------------------------------------ *)
(** ** The sync button *)

Section Button.

Variable assign_id : list Remote.Row -> Z.

(** [handleSync] leaves the [syncing] flag as it found it, so the button
    is enabled again however the round ends.  Without a database handle,
    or while [syncing] is set, it changes nothing and sends nothing.
    Otherwise the stores are as the round left them; when the round threw,
    the list on screen and the time of the last sync are kept, and the
    error is shown unless the sync was silent, in which case any earlier
    error is cleared; when the round returned, the list on screen is the
    view of the new local table and no error is shown. *)
Theorem handleSync_outcome (silent : bool) (now finished : Z)
        (st : Ui.State) (w : World) :
  let (st', w') := Ui.handleSync assign_id silent now finished st w in
  Ui.syncing st' = Ui.syncing st
  /\ Ui.db st' = Ui.db st
  /\ (Ui.db st = false \/ Ui.syncing st = true -> st' = st /\ w' = w)
  /\ (Ui.db st = true -> Ui.syncing st = false ->
      w' = snd (syncWithRemote assign_id now w)
      /\ (forall e, fst (syncWithRemote assign_id now w) = Threw e ->
                    Ui.todos st' = Ui.todos st
                    /\ Ui.lastSynced st' = Ui.lastSynced st
                    /\ Ui.error st'
                       = if silent then None else Some Ui.sync_failed)
      /\ (forall b, fst (syncWithRemote assign_id now w) = Returned b ->
                    Ui.todos st' = App.fetchTodos (localDb w')
                    /\ Ui.error st' = None
                    /\ Ui.lastSynced st' = Some finished)).
Proof.
  unfold Ui.handleSync.
  destruct (Ui.db st) eqn:Hdb, (Ui.syncing st) eqn:Hs; simpl.
  - rewrite Hdb, Hs. repeat split; auto; congruence.
  - destruct (syncWithRemote assign_id now w) as [[b | e] w'];
      simpl; destruct silent; simpl;
      (split; [reflexivity |]); (split; [reflexivity |]);
      (split; [intros [H | H]; discriminate |]);
      intros _ _; (split; [reflexivity |]);
      split; intros x Hx; try discriminate; auto.
  - rewrite Hdb, Hs. repeat split; auto; congruence.
  - rewrite Hdb, Hs. repeat split; auto; congruence.
Qed.

End Button.

(* ------------------------------------------------------------------ *)
(** ** The URL of the remote client *)

Lemma prefix_app (p rest : string) :
  String.prefix p (p ++ rest)%string = true.
Proof.
  induction p as [| c p IH]; simpl; [now destruct rest |].
  destruct (ascii_dec c c) as [_ | Hne]; [exact IH | now destruct Hne].
Qed.

Lemma string_drop_app (p rest : string) :
  string_drop (String.length p) (p ++ rest)%string = rest.
Proof. induction p as [| c p IH]; simpl; [reflexivity | exact IH]. Qed.

Lemma replace_first_unfold (pattern replacement s : string) :
  replace_first pattern replacement s
  = if String.prefix pattern s
    then (replacement ++ string_drop (String.length pattern) s)%string
    else match s with
         | EmptyString => EmptyString
         | String c rest =>
             String c (replace_first pattern replacement rest)
         end.
Proof. destruct s; reflexivity. Qed.

(** The URL given to the remote client: a URL that starts with
    [libsql://] has that scheme turned into [https://] and the rest
    kept, and a URL in which [libsql://] does not occur is passed as it
    is. *)
Theorem remote_url_scheme :
  (forall rest, remote_url ("libsql://" ++ rest) = "https://" ++ rest)%string
  /\ (forall url, occurs "libsql://" url = false -> remote_url url = url).
Proof.
  unfold remote_url. split.
  - intros rest. rewrite replace_first_unfold, prefix_app.
    now rewrite string_drop_app.
  - intros url. induction url as [| c url IH]; intros H.
    + reflexivity.
    + rewrite replace_first_unfold.
      change (occurs "libsql://" (String c url))
        with (String.prefix "libsql://" (String c url)
              || occurs "libsql://" url) in H.
      apply orb_false_iff in H. destruct H as [H1 H2].
      rewrite H1, (IH H2). reflexivity.
Qed.
